(** * firebase-go, package auth: the certificate cache and the token verifier

    A shallow embedding of [auth.Verifier]: the refresh loop
    [fetchCertLoop], the fetch [fetchCerts] with its Cache-Control scan,
    and [Verify].  Go's [time.Duration] and [int] are 64-bit signed
    integers and are kept as [Z] with the wrap-around written out; maps
    are [gmap]; the read lock, the [select] on [haveCerts] and the clock
    read of [Verify] are the operations of a small free monad. *)

From Stdlib Require Import ZArith Lia Ascii String List Bool.
From stdpp Require Import base option gmap strings list fin_maps.

Local Open Scope string_scope.
Local Open Scope Z_scope.

(** ** 64-bit signed arithmetic *)

Module Int64.

Definition modulus : Z := 2 ^ 64.
Definition min_signed : Z := - 2 ^ 63.
Definition max_signed : Z := 2 ^ 63 - 1.

(** The value an int64 holds after an operation whose exact result is [z]. *)
Definition wrap (z : Z) : Z := (z + 2 ^ 63) mod 2 ^ 64 - 2 ^ 63.

Definition in_range (z : Z) : bool := (min_signed <=? z) && (z <=? max_signed).

Definition mul (a b : Z) : Z := wrap (a * b).

End Int64.

(** ** package time *)

Module Time.

(** [time.Duration]: a count of nanoseconds, int64. *)
Definition Duration : Type := Z.

Definition Second : Duration := 1000000000.
Definition Minute : Duration := 60 * Second.

(** [time.Time], as nanoseconds since the Unix epoch.  [time.Unix sec 0]
    is taken at seconds [sec] for which Go's count of seconds since the
    year 1, [sec + 62135596800], is an int64. *)
Definition Time : Type := Z.

Definition Unix (sec : Z) : Time := sec * 1000000000.

Definition Before (t u : Time) : bool := t <? u.
Definition After (t u : Time) : bool := u <? t.

End Time.

(** ** package strings and strconv, as far as [fetchCerts] uses them *)

Module Strings.

(** [strings.Split(s, sep)] for a one-byte separator: the empty string
    splits into one empty part. *)
Fixpoint Split (sep : ascii) (s : string) : list string :=
  match s with
  | EmptyString => [EmptyString]
  | String c rest =>
      if Ascii.eqb c sep then EmptyString :: Split sep rest
      else match Split sep rest with
           | [] => [String c EmptyString]
           | p :: ps => String c p :: ps
           end
  end.

(** [strings.TrimSpace] removes the leading and the trailing white space
    of a string as unicode.IsSpace defines it, the string being read as
    UTF-8.  The white-space runes of one byte: tab, line feed, vertical
    tab, form feed, carriage return and space. *)
Definition isSpace (c : ascii) : bool :=
  let n := nat_of_ascii c in
  ((9 <=? n)%nat && (n <=? 13)%nat) || (n =? 32)%nat.

(** The white-space runes of two bytes: U+0085 (C2 85) and U+00A0
    (C2 A0). *)
Definition isSpace2 (c1 c2 : ascii) : bool :=
  let a := nat_of_ascii c1 in
  let b := nat_of_ascii c2 in
  (a =? 194)%nat && ((b =? 133)%nat || (b =? 160)%nat).

(** The white-space runes of three bytes: U+1680 (E1 9A 80), U+2000 to
    U+200A (E2 80 80 to E2 80 8A), U+2028, U+2029 and U+202F (E2 80 A8,
    A9, AF), U+205F (E2 81 9F) and U+3000 (E3 80 80). *)
Definition isSpace3 (c1 c2 c3 : ascii) : bool :=
  let a := nat_of_ascii c1 in
  let b := nat_of_ascii c2 in
  let c := nat_of_ascii c3 in
  ((a =? 225)%nat && (b =? 154)%nat && (c =? 128)%nat)
  || ((a =? 226)%nat && (b =? 128)%nat &&
      (((128 <=? c)%nat && (c <=? 138)%nat)
       || (c =? 168)%nat || (c =? 169)%nat || (c =? 175)%nat))
  || ((a =? 226)%nat && (b =? 129)%nat && (c =? 159)%nat)
  || ((a =? 227)%nat && (b =? 128)%nat && (c =? 128)%nat).

(** The string without its leading white-space runes.  Any other byte
    sequence, a malformed one too, is no white space and ends the
    trimming. *)
Fixpoint TrimLeft (s : string) : string :=
  match s with
  | EmptyString => EmptyString
  | String c1 r1 =>
      if isSpace c1 then TrimLeft r1
      else
        match r1 with
        | String c2 r2 =>
            if isSpace2 c1 c2 then TrimLeft r2
            else
              match r2 with
              | String c3 r3 => if isSpace3 c1 c2 c3 then TrimLeft r3 else s
              | EmptyString => s
              end
        | EmptyString => s
        end
  end.

(** The bytes of [s] in reverse order, put before [acc]. *)
Fixpoint revAppend (s acc : string) : string :=
  match s with
  | EmptyString => acc
  | String c rest => revAppend rest (String c acc)
  end.

Definition reverse (s : string) : string := revAppend s EmptyString.

(** [TrimLeft] on a reversed string: the runes are met last byte
    first. *)
Fixpoint trimReversed (s : string) : string :=
  match s with
  | EmptyString => EmptyString
  | String c1 r1 =>
      if isSpace c1 then trimReversed r1
      else
        match r1 with
        | String c2 r2 =>
            if isSpace2 c2 c1 then trimReversed r2
            else
              match r2 with
              | String c3 r3 => if isSpace3 c3 c2 c1 then trimReversed r3 else s
              | EmptyString => s
              end
        | EmptyString => s
        end
  end.

(** The string without its trailing white-space runes. *)
Definition TrimRight (s : string) : string := reverse (trimReversed (reverse s)).

Definition TrimSpace (s : string) : string := TrimRight (TrimLeft s).

Definition HasPrefix (s p : string) : bool := String.prefix p s.

(** The slice [s[n:]]. *)
Fixpoint slice_from (n : nat) (s : string) : string :=
  match n, s with
  | O, _ => s
  | S n', String _ rest => slice_from n' rest
  | S _, EmptyString => EmptyString
  end.

Definition digit (c : ascii) : option Z :=
  let n := nat_of_ascii c in
  if ((48 <=? n)%nat && (n <=? 57)%nat) then Some (Z.of_nat n - 48) else None.

Fixpoint digits (acc : Z) (s : string) : option Z :=
  match s with
  | EmptyString => Some acc
  | String c rest =>
      match digit c with
      | Some d => digits (10 * acc + d) rest
      | None => None
      end
  end.

(** [strconv.Atoi] with a 64-bit [int]: an optional sign, then one or
    more decimal digits; a value outside int64 is an error. *)
Definition Atoi (s : string) : option Z :=
  match s with
  | EmptyString => None
  | String c rest =>
      let '(neg, body) :=
        if Ascii.eqb c "-"%char then (true, rest)
        else if Ascii.eqb c "+"%char then (false, rest)
        else (false, s) in
      match body with
      | EmptyString => None
      | _ =>
          match digits 0 body with
          | Some n =>
              let v := if neg then - n else n in
              if Int64.in_range v then Some v else None
          | None => None
          end
      end
  end.

End Strings.

(** ** fetchCerts *)

(** Why a fetch failed.  The message of the Go error only reaches the log. *)
Inductive FetchError : Type :=
| ErrTransport   (* v.client.Do failed *)
| ErrDecode      (* the body is not a JSON object of strings *)
| ErrCertificate (* crypto.ParseRSAPublicKeyFromPEM failed *).

(** What [v.client.Do] and the JSON decoder hand to [fetchCerts]: a
    transport error, or a response with its decoded body ([None] when the
    decoder fails) and the value of its Cache-Control header (empty when
    the header is absent). *)
Inductive HTTPResult : Type :=
| DoFailed
| Response (body : option (gmap string string)) (cacheControl : string).

(** The loop over the parts of Cache-Control: [expiry] is the value set
    so far; an unparsable max-age leaves the loop ([break]). *)
Fixpoint scanMaxAge (parts : list string) (expiry : Time.Duration) : Time.Duration :=
  match parts with
  | [] => expiry
  | part :: rest =>
      let part := Strings.TrimSpace part in
      if Strings.HasPrefix part "max-age=" then
        match Strings.Atoi (Strings.slice_from 8 part) with
        | None => expiry
        | Some seconds => scanMaxAge rest (Int64.mul seconds Time.Second)
        end
      else scanMaxAge rest expiry
  end.

(** Lines 204-224 of fetchCerts: the refresh interval of a response. *)
Definition maxAgeExpiry (cacheControl : string) : Time.Duration :=
  let parts := Strings.Split ","%char cacheControl in
  let expiry := scanMaxAge parts (10 * Time.Minute) in
  if expiry <? 0 then 10 * Time.Minute else expiry.

(** No byte of the string is white space or a comma. *)
Fixpoint plain (s : string) : bool :=
  match s with
  | EmptyString => true
  | String c rest =>
      negb (Strings.isSpace c) && negb (Ascii.eqb c ","%char) && plain rest
  end.

(** A part of the header that is not a max-age directive. *)
Definition otherDirective (part : string) : Prop :=
  Strings.HasPrefix (Strings.TrimSpace part) "max-age=" = false.

(** ** The signature engine

    The jose library and the PEM parser are outside this package; the
    verifier uses them through the operations below. *)

(** A decoded JSON value, as [interface{}]: header parameters and claims.
    A number is kept as the int64 that [jwt.Claims.GetTime] converts it
    to; arrays and objects are never inspected and are [VOther]. *)
Inductive Value : Type :=
| VNil
| VBool (b : bool)
| VNumber (n : Z)
| VString (s : string)
| VOther.

(** [tok.Payload()]: a JSON object, or a value of another dynamic type
    (named as [%T] prints it). *)
Inductive PayloadValue : Type :=
| PayloadClaims (claims : gmap string Value)
| PayloadOther (typeName : string).

Class Engine : Type := {
  PublicKey : Type;
  JWS : Type;
  (** crypto.ParseRSAPublicKeyFromPEM, [None] for an error *)
  ParseRSAPublicKeyFromPEM : string -> option PublicKey;
  (** jws.ParseCompact: the error's text, or the token *)
  ParseCompact : list Byte.byte -> string + JWS;
  (** tok.Protected() *)
  Protected : JWS -> gmap string Value;
  (** tok.Payload() *)
  Payload : JWS -> PayloadValue;
  (** tok.Verify(key, crypto.SigningMethodRS256): [None] for nil, or the
      error's text *)
  jwsVerify : JWS -> PublicKey -> option string
}.

Section Cache.

Context `{E : Engine}.

(** One round of the certificate loop of fetchCerts; [None] once a
    certificate has failed (the Go code returns at that point). *)
Definition parseCert (key cert : string) (acc : option (gmap string PublicKey))
  : option (gmap string PublicKey) :=
  match acc with
  | None => None
  | Some parsedCerts =>
      match ParseRSAPublicKeyFromPEM cert with
      | None => None
      | Some pk => Some (<[key := pk]> parsedCerts)
      end
  end.

Definition parseCerts (certs : gmap string string) : option (gmap string PublicKey) :=
  map_fold parseCert (Some ∅) certs.

(** The three results of fetchCerts; the nil map is the empty map. *)
Definition fetchCerts (r : HTTPResult)
  : gmap string PublicKey * Time.Duration * option FetchError :=
  match r with
  | DoFailed => (∅, 0, Some ErrTransport)
  | Response None _ => (∅, 0, Some ErrDecode)
  | Response (Some certs) cacheControl =>
      match parseCerts certs with
      | None => (∅, 0, Some ErrCertificate)
      | Some parsedCerts => (parsedCerts, maxAgeExpiry cacheControl, None)
      end
  end.

(** ** fetchCertLoop *)

(** The fields of the Verifier the loop writes ([certs], and [haveCerts],
    true once the channel is closed) and the loop's two local variables. *)
Record LoopState : Type := mkLoopState {
  certs : gmap string PublicKey;
  haveCerts : bool;
  failExpiry : Time.Duration;
  firstFetch : bool
}.

(** The state NewVerifier and the head of fetchCertLoop set up. *)
Definition initial : LoopState :=
  {| certs := ∅; haveCerts := false; failExpiry := 1 * Time.Second; firstFetch := true |}.

(** One iteration of the loop body up to [time.After(expiry)]: the new
    state and the duration handed to the timer.  The write of [v.certs]
    and the close of [v.haveCerts] that follows it are one step here. *)
Definition iteration (st : LoopState) (r : HTTPResult) : LoopState * Time.Duration :=
  let '(newCerts, expiry, err) := fetchCerts r in
  match err with
  | None =>
      let st1 := {| certs := newCerts; haveCerts := haveCerts st;
                    failExpiry := failExpiry st; firstFetch := firstFetch st |} in
      if firstFetch st1 && (0 <? size newCerts)%nat then
        ({| certs := newCerts; haveCerts := true;
            failExpiry := failExpiry st; firstFetch := false |}, expiry)
      else (st1, expiry)
  | Some _ =>
      let gotCerts := (0 <? size (certs st))%nat in
      if negb gotCerts then
        ({| certs := certs st; haveCerts := haveCerts st;
            failExpiry := Int64.mul (failExpiry st) 2; firstFetch := firstFetch st |},
         failExpiry st)
      else (st, expiry)
  end.

(** The loop run over the results of its successive fetches, until the
    context is done: the final state and the timer durations in order. *)
Fixpoint fetchCertLoop (st : LoopState) (rs : list HTTPResult)
  : LoopState * list Time.Duration :=
  match rs with
  | [] => (st, [])
  | r :: rest =>
      let '(st1, expiry) := iteration st r in
      let '(st2, waits) := fetchCertLoop st1 rest in
      (st2, expiry :: waits)
  end.

(** The states the loop is in at the head of an iteration. *)
Definition reachable (st : LoopState) : Prop :=
  exists rs, (fetchCertLoop initial rs).1 = st.

(** A fetch that ends in an error. *)
Definition failed (r : HTTPResult) : Prop := (fetchCerts r).2 <> None.

(** What holds of the signal in every state of the loop. *)
Definition signal_inv (st : LoopState) : Prop :=
  haveCerts st = negb (firstFetch st) /\ (certs st <> ∅ -> haveCerts st = true).

End Cache.


(** ** Errors *)

(** What [ctx.Err()] returns once [ctx.Done()] is closed. *)
Inductive ContextError : Type := Canceled | DeadlineExceeded.

(** An operand of a formatting verb. *)
Inductive FmtArg : Type :=
| FString (s : string)     (* a string, under %s or %q *)
| FError (text : string)   (* an error, under %v *)
| FType (name : string)    (* a value, under %T *).

(** The error values Verify returns: [errors.New(msg)], [fmt.Errorf] with
    its format and operands, and the context's own error. *)
Inductive error : Type :=
| New (msg : string)
| Errorf (format : string) (args : list FmtArg)
| contextError (e : ContextError).

(** ** Verify *)

Record Verifier : Type := mkVerifier {
  projectID : string;
  issuer : string
}.

(** The two fields NewVerifier derives from its project id. *)
Definition NewVerifier (projectID : string) : Verifier :=
  {| projectID := projectID;
     issuer := "https://securetoken.google.com/" ++ projectID |}.

Record User : Type := mkUser {
  ID : string;
  SignInProvider : string;
  EmailVerified : bool;
  Email : string
}.

(** [m.Get(name)]: nil for an absent name. *)
Definition Get (m : gmap string Value) (name : string) : Value :=
  default VNil (m !! name).

(** The type assertions [x.(string)] and [x.(bool)] in their two-result
    form: the zero value and false when the dynamic type differs. *)
Definition assertString (x : Value) : string * bool :=
  match x with
  | VString s => (s, true)
  | _ => ("", false)
  end.

Definition assertBool (x : Value) : bool * bool :=
  match x with
  | VBool b => (b, true)
  | _ => (false, false)
  end.

(** [claims.GetTime(name)], behind Expiration and IssuedAt: a numeric
    claim read as whole seconds since the epoch. *)
Definition GetTime (claims : gmap string Value) (name : string) : option Time.Time :=
  match Get claims name with
  | VNumber sec => Some (Time.Unix sec)
  | _ => None
  end.

Definition Expiration (claims : gmap string Value) : option Time.Time := GetTime claims "exp".
Definition IssuedAt (claims : gmap string Value) : option Time.Time := GetTime claims "iat".

(** What the select statement of Verify takes: the context's Done
    channel (with the error [ctx.Err()] then reports) or [haveCerts]. *)
Inductive SelectResult : Type :=
| CtxDone (e : ContextError)
| HaveCertsClosed.

Section Verify.

Context `{E : Engine}.

(** The operations through which Verify meets the rest of the program:
    a read of [v.certs] under the read lock, the select on [ctx.Done()]
    and [v.haveCerts], and [time.Now()]. *)
Inductive VerifyM (A : Type) : Type :=
| Ret (a : A)
| RLock (k : gmap string PublicKey -> VerifyM A)
| Select (k : SelectResult -> VerifyM A)
| Now (k : Time.Time -> VerifyM A).

Arguments Ret {A} _.
Arguments RLock {A} _.
Arguments Select {A} _.
Arguments Now {A} _.

(** Step 2 of Verify (lines 98-132): the checks on the claims at the
    time [now], and the User built from them. *)
Definition checkClaims (v : Verifier) (claims : gmap string Value) (now : Time.Time)
  : User + error :=
  if (match Expiration claims with
      | Some exp => Time.Before exp now
      | None => true
      end)
  then inr (New "auth: expired token")
  else if (match IssuedAt claims with
           | Some iat => Time.After iat now
           | None => true
           end)
  then inr (New "auth: token issued in the future")
  else
    let '(aud, ok) := assertString (Get claims "aud") in
    if negb ok || negb (String.eqb aud (projectID v))
    then inr (Errorf "auth: unexpected project ID (%q)" [FString aud])
    else
      let '(iss, ok) := assertString (Get claims "iss") in
      if negb ok || negb (String.eqb iss (issuer v))
      then inr (Errorf "auth: unexpected issuer (%q)" [FString iss])
      else
        let sub := (assertString (Get claims "sub")).1 in
        let userID := (assertString (Get claims "user_id")).1 in
        if String.eqb sub "" || String.eqb userID "" || negb (String.eqb sub userID)
        then inr (Errorf "auth: invalid sub or user_id (%q / %q)" [FString sub; FString userID])
        else
          inl {| ID := userID;
                 Email := (assertString (Get claims "email")).1;
                 EmailVerified := (assertBool (Get claims "email_verified")).1;
                 SignInProvider := (assertString (Get claims "sign_in_provider")).1 |}.

(** Lines 84-96: the outcome of the lookup [v.certs[kid]], the signature
    check, the payload's type, and the clock read. *)
Definition withKey (v : Verifier) (tok : JWS) (kid : string) (key : option PublicKey)
  : VerifyM (User + error) :=
  match key with
  | None => Ret (inr (Errorf "auth: unknown kid: %s" [FString kid]))
  | Some key =>
      match jwsVerify tok key with
      | Some err => Ret (inr (Errorf "auth: verification failure: %v" [FError err]))
      | None =>
          match Payload tok with
          | PayloadOther name =>
              Ret (inr (Errorf "auth: unexpected payload type: %T" [FType name]))
          | PayloadClaims claimsMap =>
              Now (fun now => Ret (checkClaims v claimsMap now))
          end
      end
  end.

(** Lines 68-82: the lookup of the key, after a wait when the map is
    empty. *)
Definition lookupKey (v : Verifier) (tok : JWS) (kid : string) : VerifyM (User + error) :=
  RLock (fun certs =>
    if (size certs =? 0)%nat then
      Select (fun r =>
        match r with
        | CtxDone e => Ret (inr (contextError e))
        | HaveCertsClosed => RLock (fun certs => withKey v tok kid (certs !! kid))
        end)
    else withKey v tok kid (certs !! kid)).

Definition Verify (v : Verifier) (token : list Byte.byte) : VerifyM (User + error) :=
  match ParseCompact token with
  | inl err => Ret (inr (Errorf "auth: parse error: %v" [FError err]))
  | inr tok =>
      let '(alg, ok) := assertString (Get (Protected tok) "alg") in
      if negb ok || negb (String.eqb alg "RS256")
      then Ret (inr (Errorf "auth: alg is %s, not RS256" [FString alg]))
      else
        let '(kid, ok) := assertString (Get (Protected tok) "kid") in
        if negb ok then Ret (inr (New "auth: invalid kid"))
        else lookupKey v tok kid
  end.

(** ** Running Verify against the rest of the program *)

(** An operation Verify performed. *)
Inductive Event : Type := EvRLock | EvSelect | EvNow.

(** What a call meets: the map under its first read lock, what its
    select takes (with the map seen under the lock taken after
    [haveCerts]), and the clock. *)
Record World : Type := mkWorld {
  wCerts : gmap string PublicKey;
  wSelect : ContextError + gmap string PublicKey;
  wNow : Time.Time
}.

(** The operations performed, in order, and the result. *)
Fixpoint run {A : Type} (w : World) (p : VerifyM A) : list Event * A :=
  match p with
  | Ret a => ([], a)
  | RLock k =>
      let '(evs, a) := run w (k (wCerts w)) in (EvRLock :: evs, a)
  | Select k =>
      match wSelect w with
      | inl e =>
          let '(evs, a) := run w (k (CtxDone e)) in (EvSelect :: evs, a)
      | inr certs' =>
          let '(evs, a) :=
            run {| wCerts := certs'; wSelect := wSelect w; wNow := wNow w |}
                (k HaveCertsClosed) in
          (EvSelect :: evs, a)
      end
  | Now k =>
      let '(evs, a) := run w (k (wNow w)) in (EvNow :: evs, a)
  end.

(** The three ways a token fails before Verify looks for its key, with
    the error of each. *)
Inductive HeaderFailure (token : list Byte.byte) : error -> Prop :=
| FailParse (err : string) :
    ParseCompact token = inl err ->
    HeaderFailure token (Errorf "auth: parse error: %v" [FError err])
| FailAlg (tok : JWS) :
    ParseCompact token = inr tok ->
    Get (Protected tok) "alg" <> VString "RS256" ->
    HeaderFailure token
      (Errorf "auth: alg is %s, not RS256"
              [FString (assertString (Get (Protected tok) "alg")).1])
| FailKid (tok : JWS) :
    ParseCompact token = inr tok ->
    Get (Protected tok) "alg" = VString "RS256" ->
    (forall kid, Get (Protected tok) "kid" <> VString kid) ->
    HeaderFailure token (New "auth: invalid kid").

End Verify.

(** An optional claim as the User shows it: the claim when it is present
    with the right type, the zero value otherwise. *)
Definition claimString (claims : gmap string Value) (name : string) : string :=
  match claims !! name with
  | Some (VString s) => s
  | _ => ""
  end.

Definition claimBool (claims : gmap string Value) (name : string) : bool :=
  match claims !! name with
  | Some (VBool b) => b
  | _ => false
  end.

Arguments Ret {E A} _.
Arguments RLock {E A} _.
Arguments Select {E A} _.
Arguments Now {E A} _.

(** ** The spec's names for the failures of Verify *)

Module Failure.

Definition MalformedToken (err : string) : error :=
  Errorf "auth: parse error: %v" [FError err].
Definition UnsupportedAlgorithm (alg : string) : error :=
  Errorf "auth: alg is %s, not RS256" [FString alg].
Definition MissingKeyID : error := New "auth: invalid kid".
Definition UnknownKeyID (kid : string) : error :=
  Errorf "auth: unknown kid: %s" [FString kid].
Definition BadSignature (err : string) : error :=
  Errorf "auth: verification failure: %v" [FError err].
Definition Expired : error := New "auth: expired token".
Definition IssuedInFuture : error := New "auth: token issued in the future".
Definition AudienceMismatch (aud : string) : error :=
  Errorf "auth: unexpected project ID (%q)" [FString aud].
Definition IssuerMismatch (iss : string) : error :=
  Errorf "auth: unexpected issuer (%q)" [FString iss].
Definition SubjectMismatch (sub userID : string) : error :=
  Errorf "auth: invalid sub or user_id (%q / %q)" [FString sub; FString userID].
Definition ContextCancelled (e : ContextError) : error := contextError e.


(** The text of the error before its operands are formatted in. *)
Definition format (e : error) : option string :=
  match e with
  | New msg => Some msg
  | Errorf f _ => Some f
  | contextError _ => None
  end.


End Failure.


(** ** A small signature engine, for concrete runs *)

Module Sample.

(** A token is a header, a payload and the number of the key that signed
    it; a key is its number; a certificate parses to its length unless
    it is the text [bad]. *)
Record token : Type := mkToken {
  header : gmap string Value;
  payload : PayloadValue;
  signer : nat
}.

Definition rs256 (kid : string) : gmap string Value :=
  <["kid" := VString kid]> {["alg" := VString "RS256"]}.

Definition goodClaims (exp iat : Z) : gmap string Value :=
  <["exp" := VNumber exp]> (<["iat" := VNumber iat]> (
  <["aud" := VString "projectID"]> (
  <["iss" := VString "https://securetoken.google.com/projectID"]> (
  <["sub" := VString "sub"]> (<["user_id" := VString "sub"]> (
  <["email" := VString "foo@example.com"]> (
  <["email_verified" := VBool true]> (
  {["sign_in_provider" := VNumber 7]})))))))).

(** The tokens the one-byte inputs stand for; any other input does not
    parse. *)
Definition parse (bs : list Byte.byte) : string + token :=
  match bs with
  | [Byte.x01] =>
      inr {| header := {["alg" := VString "HS256"]};
             payload := PayloadClaims ∅; signer := 3%nat |}
  | [Byte.x02] =>
      inr {| header := {["alg" := VString "RS256"]};
             payload := PayloadClaims ∅; signer := 3%nat |}
  | [Byte.x03] =>
      inr {| header := rs256 "k1";
             payload := PayloadClaims (goodClaims 1000 900); signer := 4%nat |}
  | [Byte.x04] =>
      inr {| header := rs256 "k9";
             payload := PayloadClaims (goodClaims 1000 900); signer := 4%nat |}
  | [Byte.x05] =>
      inr {| header := rs256 "k1";
             payload := PayloadOther "[]interface {}"; signer := 4%nat |}
  | _ => inl "not a compact JWS"
  end.

Definition engine : Engine := {|
  PublicKey := nat;
  JWS := token;
  ParseRSAPublicKeyFromPEM := fun cert =>
    if String.eqb cert "bad" then None else Some (String.length cert);
  ParseCompact := parse;
  Protected := header;
  Payload := payload;
  jwsVerify := fun tok key =>
    if (signer tok =? key)%nat then None else Some "crypto/rsa: verification error"
|}.

Definition oneKey : HTTPResult := Response (Some {["k1" := "cert"]}) "".
Definition noKeys : HTTPResult := Response (Some ∅) "".

Definition verifier : Verifier := NewVerifier "projectID".

(** A call that finds key 4 under [k1] at once, at the time [now]. *)
Definition world (now : Time.Time) : World (E := engine) :=
  {| wCerts := {["k1" := 4%nat]}; wSelect := inl Canceled; wNow := now |}.

End Sample.

(** ** What a run of the loop has published *)

Section Published.

Context `{E : Engine}.

(** The map a fetch hands to the loop for publication: none when it
    ends in an error. *)
Definition published (r : HTTPResult) : option (gmap string PublicKey) :=
  match fetchCerts r with
  | (newCerts, _, None) => Some newCerts
  | (_, _, Some _) => None
  end.

(** The map of the last fetch without error among [rs], and [current]
    when there is none. *)
Definition lastPublished (current : gmap string PublicKey) (rs : list HTTPResult)
  : gmap string PublicKey :=
  fold_left (fun acc r => default acc (published r)) rs current.

(** A fetch without error whose map holds a key. *)
Definition loadsKeys (r : HTTPResult) : bool :=
  match published r with
  | Some newCerts => (0 <? size newCerts)%nat
  | None => false
  end.

(** The test of line 146, under which the iteration closes
    [v.haveCerts]. *)
Definition closesHaveCerts (st : LoopState) (r : HTTPResult) : bool :=
  firstFetch st && loadsKeys r.

(** The map in which a call of Verify looks its key up: the one under
    its first lock when that holds keys, the one seen after the wait
    otherwise; none when the wait ends with the context done. *)
Definition seenCerts (w : World) : option (gmap string PublicKey) :=
  if (size (wCerts w) =? 0)%nat then
    match wSelect w with
    | inl _ => None
    | inr certs' => Some certs'
    end
  else Some (wCerts w).

End Published.

(** The conditions of lines 99-125 on the claims, each as the code
    tests it. *)
Definition expLive (claims : gmap string Value) (now : Time.Time) : Prop :=
  exists exp, claims !! "exp" = Some (VNumber exp) /\ now <= Time.Unix exp.

Definition iatPast (claims : gmap string Value) (now : Time.Time) : Prop :=
  exists iat, claims !! "iat" = Some (VNumber iat) /\ Time.Unix iat <= now.

Definition audOk (v : Verifier) (claims : gmap string Value) : Prop :=
  claims !! "aud" = Some (VString (projectID v)).

Definition issOk (v : Verifier) (claims : gmap string Value) : Prop :=
  claims !! "iss" = Some (VString (issuer v)).

Definition subIs (claims : gmap string Value) (sub : string) : Prop :=
  claims !! "sub" = Some (VString sub) /\
  claims !! "user_id" = Some (VString sub) /\
  sub <> "".

(** The claims a verifier accepts at the time [now]. *)
Definition acceptable (v : Verifier) (claims : gmap string Value) (now : Time.Time)
    (sub : string) : Prop :=
  expLive claims now /\ iatPast claims now /\
  audOk v claims /\ issOk v claims /\ subIs claims sub.

(** The User built from accepted claims. *)
Definition userOf (claims : gmap string Value) (sub : string) : User :=
  {| ID := sub;
     SignInProvider := claimString claims "sign_in_provider";
     EmailVerified := claimBool claims "email_verified";
     Email := claimString claims "email" |}.

(** A string made of white-space runes only. *)
Inductive blank : string -> Prop :=
| blank_empty : blank EmptyString
| blank_1 (c : ascii) (rest : string) :
    Strings.isSpace c = true -> blank rest -> blank (String c rest)
| blank_2 (c1 c2 : ascii) (rest : string) :
    Strings.isSpace2 c1 c2 = true -> blank rest ->
    blank (String c1 (String c2 rest))
| blank_3 (c1 c2 c3 : ascii) (rest : string) :
    Strings.isSpace3 c1 c2 c3 = true -> blank rest ->
    blank (String c1 (String c2 (String c3 rest))).

(** U+00A0, the no-break space, in UTF-8. *)
Definition nbsp : string :=
  String (ascii_of_nat 194) (String (ascii_of_nat 160) EmptyString).

(** A part of the header that is a max-age directive with a value Atoi
    accepts. *)
Definition maxAgeDirective (part : string) (seconds : Z) : Prop :=
  Strings.HasPrefix (Strings.TrimSpace part) "max-age=" = true /\
  Strings.Atoi (Strings.slice_from 8 (Strings.TrimSpace part)) = Some seconds.

(** * Package fcm: Client.Send *)

Module FCM.

(** What a call may end in besides returning: a panic with its text. *)
Inductive outcome (A : Type) : Type :=
| Panic (text : string)
| Return (a : A).

Arguments Panic {A} _.
Arguments Return {A} _.

(** One entry of [Response.Results]. *)
Record MessageResult : Type := mkMessageResult {
  MessageID : string;
  RegistrationID : string;
  Error : string
}.

(** The decoded answer of the FCM server. *)
Record Response : Type := mkResponse {
  MulticastID : Z;
  Success : Z;
  Failure : Z;
  CanonicalIDs : Z;
  Results : list MessageResult;
  RetryAfter : Time.Duration
}.

(** [*ServerError]; the fields are RetryAfter, StatusCode and Body. *)
Record ServerError : Type := mkServerError {
  seRetryAfter : Time.Duration;
  seStatusCode : Z;
  seBody : string
}.

(** The request Send builds: POST to the client's URL with the two
    headers it sets and the marshalled message as body. *)
Record Request : Type := mkRequest {
  reqMethod : string;
  reqURL : string;
  reqAuthorization : string;
  reqContentType : string;
  reqBody : string
}.

(** What Send reads of the response of [c.client.Do]: the status code,
    [Header.Get] and the bytes of the body. *)
Record HTTPResponse : Type := mkHTTPResponse {
  StatusCode : Z;
  HeaderGet : string -> string;
  Body : string
}.

(** The packages Send calls into: the message type with json.Marshal
    ([None] for an error), http.NewRequest (whether the URL is
    accepted), the contexts, the HTTP client run on a request under a
    context (the error's text, or the response), time.ParseDuration
    ([None] for an error, where Go returns the zero Duration), and the
    JSON decoder of the body (the error's text, or the decoded
    Response). *)
Class Env : Type := {
  Message : Type;
  Marshal : Message -> option string;
  NewRequestAccepts : string -> bool;
  Context : Type;
  Do : Context -> Request -> string + HTTPResponse;
  ParseDuration : string -> option Time.Duration;
  Decode : string -> string + Response
}.

Section Client.

Context `{V : Env}.

(** An operand of a formatting verb. *)
Inductive FmtArg : Type :=
| FMessage (msg : Message)   (* the message, under %v *)
| FBytes (body : string)     (* the body read, under %s *)
| FInt (n : Z)               (* a status code, under %d *).

(** The errors Send returns: one made by fmt.Errorf, the package
    variable ErrAuthenticationFailure, a [*ServerError], or the error of
    [c.client.Do] as it came. *)
Inductive error : Type :=
| Errorf (format : string) (args : list FmtArg)
| ErrAuthenticationFailure
| ServerErr (e : ServerError)
| DoError (text : string).

Definition apiURL : string := "https://fcm.googleapis.com/fcm/send".

Record Client : Type := mkClient {
  apiKey : string;
  clientURL : string   (* the field apiURL *)
}.


(** Lines 46-52 of Send: the request for the marshalled message. *)
Definition newRequest (c : Client) (data : string) : Request :=
  {| reqMethod := "POST";
     reqURL := clientURL c;
     reqAuthorization := "key=" ++ apiKey c;
     reqContentType := "application/json";
     reqBody := data |}.

(** Line 61 of Send: the Retry-After hint of a response, zero when the
    header is absent or is no duration. *)
Definition retryHint (resp : HTTPResponse) : Time.Duration :=
  default 0 (ParseDuration (HeaderGet resp "Retry-After")).

(** Lines 59-91 of Send: the answer to a response. *)
Definition answer (resp : HTTPResponse) : Response + error :=
  let retryAfter := retryHint resp in
  if (500 <=? StatusCode resp) && (StatusCode resp <? 600) then
    inr (ServerErr {| seRetryAfter := retryAfter;
                      seStatusCode := StatusCode resp;
                      seBody := Body resp |})
  else if StatusCode resp =? 400 then
    inr (Errorf "fcm: invalid request: %s" [FBytes (Body resp)])
  else if StatusCode resp =? 401 then
    inr ErrAuthenticationFailure
  else if StatusCode resp =? 200 then
    match Decode (Body resp) with
    | inl err => inr (Errorf ("fcm: could not decode response: " ++ err) [])
    | inr response =>
        inl {| MulticastID := MulticastID response;
               Success := Success response;
               Failure := Failure response;
               CanonicalIDs := CanonicalIDs response;
               Results := Results response;
               RetryAfter := retryAfter |}
    end
  else inr (Errorf "fcm: unexpected status code %d" [FInt (StatusCode resp)]).

(** Send; [msg] is [None] for the nil pointer and [ctx] is [None] for
    the nil context, on which [req.WithContext] panics (line 53). *)
Definition Send (c : Client) (ctx : option Context) (msg : option Message)
  : outcome (Response + error) :=
  match msg with
  | None => Panic "fcm: cannot send nil msg"
  | Some m =>
      match Marshal m with
      | None => Return (inr (Errorf "fcm: cannot marshal msg: %v" [FMessage m]))
      | Some data =>
          if negb (NewRequestAccepts (clientURL c))
          then Panic ("fcm: internal error: invalid api URL: " ++ apiURL)
          else
            match ctx with
            | None => Panic "nil context"
            | Some cx =>
                match Do cx (newRequest c data) with
                | inl err => Return (inr (DoError err))
                | inr resp => Return (answer resp)
                end
            end
      end
  end.

End Client.

(** A small environment for concrete runs: a message is its JSON text,
    http.NewRequest rejects the URL [::], there is one context, the
    server answers by the length of the body it is sent, a duration is
    read in whole seconds with the unit [s], and every body decodes to
    the same Response. *)
Module Sample.

Definition decoded : Response :=
  {| MulticastID := 108; Success := 1; Failure := 0; CanonicalIDs := 0;
     Results := [ {| MessageID := "1:08"; RegistrationID := ""; Error := "" |} ];
     RetryAfter := 5 |}.

Definition server (req : Request) : string + HTTPResponse :=
  match String.length (reqBody req) with
  | 0%nat => inl "connection refused"
  | 1%nat => inr {| StatusCode := 503;
                    HeaderGet := fun name =>
                      if String.eqb name "Retry-After" then "120s" else "";
                    Body := "unavailable" |}
  | 2%nat => inr {| StatusCode := 200;
                    HeaderGet := fun name =>
                      if String.eqb name "Retry-After" then "30s" else "";
                    Body := "{}" |}
  | 3%nat => inr {| StatusCode := 401; HeaderGet := fun _ => ""; Body := "" |}
  | _ => inr {| StatusCode := 302; HeaderGet := fun _ => ""; Body := "" |}
  end.

Definition env : Env := {|
  Message := string;
  Marshal := fun m => Some m;
  NewRequestAccepts := fun url => negb (String.eqb url "::");
  Context := unit;
  Do := fun _ => server;
  ParseDuration := fun s =>
    if String.eqb s "120s" then Some (120 * Time.Second)
    else if String.eqb s "30s" then Some (30 * Time.Second)
    else None;
  Decode := fun _ => inr decoded
|}.

Definition client : Client := {| apiKey := "secret"; clientURL := apiURL |}.

End Sample.

End FCM.

(** * Properties *)

(** ** int64 *)

Lemma wrap_small (z : Z) :
  Int64.min_signed <= z <= Int64.max_signed -> Int64.wrap z = z.
Proof.
  unfold Int64.wrap, Int64.min_signed, Int64.max_signed. intros Hz.
  rewrite Z.mod_small; lia.
Qed.

Lemma wrap_double (z : Z) : Int64.mul (Int64.wrap z) 2 = Int64.wrap (z * 2).
Proof.
  unfold Int64.mul, Int64.wrap.
  set (m := 2 ^ 64). set (h := 2 ^ 63).
  assert (Hm : m <> 0) by (subst m; lia).
  rewrite (Z.mod_eq (z + h) m Hm).
  replace ((z + h - m * ((z + h) / m) - h) * 2 + h)
    with (z * 2 + h + (- 2 * ((z + h) / m)) * m) by ring.
  rewrite Z_mod_plus_full. reflexivity.
Qed.

(** ** The refresh loop *)

Section Loop.

Context `{E : Engine}.

Lemma fetchCerts_failed (r : HTTPResult) (e : FetchError) :
  (fetchCerts r).2 = Some e -> fetchCerts r = (∅, 0, Some e).
Proof.
  destruct r as [|[body|] cc]; simpl.
  - intros [= <-]. reflexivity.
  - destruct (parseCerts body); simpl; intros [= <-]. reflexivity.
  - intros [= <-]. reflexivity.
Qed.

Lemma size_ltb_empty {A} (m : gmap string A) : (0 <? size m)%nat = false <-> m = ∅.
Proof.
  rewrite Nat.ltb_ge. rewrite <- map_size_empty_iff. lia.
Qed.

Lemma size_ltb_nonempty {A} (m : gmap string A) : (0 <? size m)%nat = true <-> m <> ∅.
Proof.
  rewrite Nat.ltb_lt. rewrite <- map_size_non_empty_iff. lia.
Qed.

(** A failed fetch never touches the published map. *)
Lemma iteration_failed_certs (st : LoopState) (r : HTTPResult) (e : FetchError) :
  (fetchCerts r).2 = Some e -> certs (iteration st r).1 = certs st.
Proof.
  intros He. unfold iteration. rewrite (fetchCerts_failed r e He).
  destruct (negb (0 <? size (certs st))%nat); reflexivity.
Qed.

(** A fetch without error installs what it parsed. *)
Lemma iteration_ok_certs (st : LoopState) (r : HTTPResult) newCerts expiry :
  fetchCerts r = (newCerts, expiry, None) -> certs (iteration st r).1 = newCerts.
Proof.
  intros Hr. unfold iteration. rewrite Hr. simpl.
  destruct (firstFetch st && (0 <? size newCerts)%nat); reflexivity.
Qed.

Lemma signal_inv_initial : signal_inv initial.
Proof. split; [reflexivity | intros H; exfalso; apply H; reflexivity]. Qed.

Lemma signal_inv_iteration (st : LoopState) (r : HTTPResult) :
  signal_inv st -> signal_inv (iteration st r).1.
Proof.
  intros [Hff Hne]. unfold iteration.
  destruct (fetchCerts r) as [[newCerts expiry] [e|]] eqn:Hr.
  - destruct (negb (0 <? size (certs st))%nat); split; simpl; assumption.
  - simpl. destruct (firstFetch st) eqn:Hf; simpl.
    + destruct (0 <? size newCerts)%nat eqn:Hs; split; simpl.
      * reflexivity.
      * reflexivity.
      * exact Hff.
      * intros Hn. apply size_ltb_empty in Hs. contradiction.
    + split; simpl; [exact Hff | intros _; rewrite Hff; reflexivity].
Qed.

Lemma fetchCertLoop_cons (st : LoopState) (r : HTTPResult) (rs : list HTTPResult) :
  fetchCertLoop st (r :: rs) =
  ((fetchCertLoop (iteration st r).1 rs).1,
   (iteration st r).2 :: (fetchCertLoop (iteration st r).1 rs).2).
Proof.
  cbn [fetchCertLoop]. destruct (iteration st r) as [st1 expiry]. cbn [fst snd].
  destruct (fetchCertLoop st1 rs) as [st2 waits]. reflexivity.
Qed.

Lemma fetchCertLoop_app (st : LoopState) (rs rs' : list HTTPResult) :
  (fetchCertLoop st (rs ++ rs')).1 = (fetchCertLoop (fetchCertLoop st rs).1 rs').1.
Proof.
  revert st. induction rs as [|r rs IH]; intros st; [reflexivity|].
  rewrite <- app_comm_cons, !fetchCertLoop_cons. simpl. apply IH.
Qed.

Lemma reachable_initial : reachable initial.
Proof. exists []. reflexivity. Qed.

Lemma reachable_iteration (st : LoopState) (r : HTTPResult) :
  reachable st -> reachable (iteration st r).1.
Proof.
  intros [rs <-]. exists (rs ++ [r])%list.
  rewrite fetchCertLoop_app, fetchCertLoop_cons. reflexivity.
Qed.

Lemma signal_inv_loop (st : LoopState) (rs : list HTTPResult) :
  signal_inv st -> signal_inv (fetchCertLoop st rs).1.
Proof.
  revert st. induction rs as [|r rs IH]; intros st Hst; [exact Hst|].
  rewrite fetchCertLoop_cons. simpl. apply IH, signal_inv_iteration, Hst.
Qed.

Lemma reachable_signal_inv (st : LoopState) : reachable st -> signal_inv st.
Proof. intros [rs <-]. apply signal_inv_loop, signal_inv_initial. Qed.

End Loop.

(** ** What the loop publishes *)

(** C1, as the spec states it, fails: with the sample engine, a fetch of
    one key followed by a fetch that succeeds with no key at all leaves
    the loop, after the signal has fired, with an empty published map:
    the empty result was not treated as a failure, it replaced the
    one-key map. *)
Lemma C1_empty_snapshot_published :
  let st1 := (iteration (E := Sample.engine) initial Sample.oneKey).1 in
  let st2 := (iteration (E := Sample.engine) st1 Sample.noKeys).1 in
  reachable st2 /\
  haveCerts st1 = true /\ size (certs st1) = 1%nat /\
  (fetchCerts (E := Sample.engine) Sample.noKeys).2 = None /\
  haveCerts st2 = true /\ certs st2 = ∅.
Proof.
  cbv zeta. split.
  - apply reachable_iteration, reachable_iteration, reachable_initial.
  - repeat split; vm_compute; reflexivity.
Qed.

(** C1, amended: a fetch without error replaces the published map by the
    parsed key set, empty or not, and a fetch with an error leaves the
    map alone; only the signal is guarded against an empty result: an
    iteration that fires it has just published a non-empty map. *)
Theorem C1_publish_and_signal `{E : Engine} (st : LoopState) (r : HTTPResult) :
  let st' := (iteration st r).1 in
  (forall newCerts expiry,
      fetchCerts r = (newCerts, expiry, None) -> certs st' = newCerts) /\
  (forall e, (fetchCerts r).2 = Some e -> certs st' = certs st) /\
  (haveCerts st = false -> haveCerts st' = true -> certs st' <> ∅).
Proof.
  cbv zeta. split; [|split].
  - intros newCerts expiry Hr. exact (iteration_ok_certs st r newCerts expiry Hr).
  - intros e He. exact (iteration_failed_certs st r e He).
  - unfold iteration.
    destruct (fetchCerts r) as [[newCerts expiry] [e|]] eqn:Hr.
    + destruct (negb (0 <? size (certs st))%nat); simpl; congruence.
    + simpl. destruct (firstFetch st); simpl; [|congruence].
      destruct (0 <? size newCerts)%nat eqn:Hs; simpl; [|congruence].
      intros _ _. apply size_ltb_nonempty, Hs.
Qed.

Lemma C1_publish_and_signal_witness :
  haveCerts (E := Sample.engine) initial = false /\
  haveCerts (iteration (E := Sample.engine) initial Sample.oneKey).1 = true /\
  certs (iteration (E := Sample.engine) initial Sample.oneKey).1 <> ∅.
Proof.
  split; [reflexivity|]. split; [reflexivity|].
  apply (proj2 (proj2 (C1_publish_and_signal (E := Sample.engine) initial Sample.oneKey)));
    reflexivity.
Defined.

(** ** The timer after a failed fetch *)

(** C2: the code at a failing input and at every other one: when a fetch
    fails while the published map holds keys, fetchCertLoop keeps its
    state and hands [time.After] the zero duration that fetchCerts
    returns beside every error, so the next attempt follows at once. *)
Theorem C2_failed_refresh_waits_zero `{E : Engine} (st : LoopState) (r : HTTPResult)
    (e : FetchError)
    (Hcerts : certs st <> ∅) (Hfail : (fetchCerts r).2 = Some e) :
  iteration st r = (st, 0).
Proof.
  unfold iteration. rewrite (fetchCerts_failed r e Hfail).
  apply size_ltb_nonempty in Hcerts. rewrite Hcerts. reflexivity.
Qed.

Lemma C2_failed_refresh_waits_zero_witness :
  let st := (iteration (E := Sample.engine) initial Sample.oneKey).1 in
  certs st <> ∅ /\
  (fetchCerts (E := Sample.engine) DoFailed).2 = Some ErrTransport /\
  iteration st DoFailed = (st, 0) /\
  (fetchCertLoop (E := Sample.engine) initial [Sample.oneKey; DoFailed]).2
    = [10 * Time.Minute; 0].
Proof.
  cbv zeta.
  assert (Hne : certs (iteration (E := Sample.engine) initial Sample.oneKey).1 <> ∅).
  { apply size_ltb_nonempty. vm_compute. reflexivity. }
  split; [exact Hne|]. split; [reflexivity|]. split.
  - apply (C2_failed_refresh_waits_zero (E := Sample.engine) _ DoFailed ErrTransport).
    + exact Hne.
    + reflexivity.
  - vm_compute. reflexivity.
Defined.

(** ** Back-off on a cold start *)

Section Backoff.

Context `{E : Engine}.

Lemma iteration_cold_failure (st : LoopState) (r : HTTPResult) :
  certs st = ∅ -> failed r ->
  iteration st r =
  ({| certs := certs st; haveCerts := haveCerts st;
      failExpiry := Int64.mul (failExpiry st) 2; firstFetch := firstFetch st |},
   failExpiry st).
Proof.
  intros Hc Hf. unfold failed in Hf.
  destruct ((fetchCerts r).2) as [e|] eqn:He; [|congruence].
  unfold iteration. rewrite (fetchCerts_failed r e He).
  apply size_ltb_empty in Hc. rewrite Hc. reflexivity.
Qed.

(** The waits of a run of failures over an empty map, as int64 values. *)
Lemma cold_failures_waits (rs : list HTTPResult) :
  forall (st : LoopState) (f : Z),
    certs st = ∅ -> Forall failed rs -> failExpiry st = Int64.wrap f ->
    (fetchCertLoop st rs).2 =
    map (fun k => Int64.wrap (f * 2 ^ Z.of_nat k)) (seq 0 (length rs)).
Proof.
  induction rs as [|r rs IH]; intros st f Hc Hall Hf; [reflexivity|].
  inversion Hall as [|? ? Hr Hrs]; subst.
  rewrite fetchCertLoop_cons, (iteration_cold_failure st r Hc Hr).
  cbn [fst snd length seq map]. f_equal.
  - rewrite Hf. f_equal. change (2 ^ Z.of_nat 0) with 1. lia.
  - rewrite (IH _ (f * 2)); cbn [certs failExpiry]; try assumption.
    + rewrite <- seq_shift, map_map. apply map_ext. intros k.
      f_equal. rewrite Nat2Z.inj_succ, Z.pow_succ_r by lia. ring.
    + rewrite Hf. apply wrap_double.
Qed.

Lemma backoff_fits (k : nat) :
  (k < 34)%nat -> Int64.wrap (Time.Second * 2 ^ Z.of_nat k) = 2 ^ Z.of_nat k * Time.Second.
Proof.
  intros Hk. rewrite wrap_small; [ring|].
  assert (H1 : 0 < 2 ^ Z.of_nat k) by (apply Z.pow_pos_nonneg; lia).
  assert (H2 : 2 ^ Z.of_nat k <= 2 ^ 33) by (apply Z.pow_le_mono_r; lia).
  unfold Int64.min_signed, Int64.max_signed, Time.Second.
  change (2 ^ 33) with 8589934592 in H2.
  change (2 ^ 63) with 9223372036854775808. lia.
Qed.

End Backoff.

(** C5, as the spec states it, fails twice.  The doubling is bounded:
    the 35th consecutive cold-start failure waits a negative int64, not
    twice the 34th wait.  And a fetch without error does not bring the
    wait back to one second: after two failures and a fetch that
    succeeds with no key, the next failure waits four seconds. *)
Lemma C5_backoff_wraps_and_is_not_reset :
  let waits := (fetchCertLoop (E := Sample.engine) initial (repeat DoFailed 35)).2 in
  nth 33 waits 0 = 2 ^ 33 * Time.Second /\
  nth 34 waits 0 = -1266874889709551616 /\
  nth 34 waits 0 <> 2 * nth 33 waits 0 /\
  (fetchCerts (E := Sample.engine) Sample.noKeys).2 = None /\
  (fetchCertLoop (E := Sample.engine) initial
     [DoFailed; DoFailed; Sample.noKeys; DoFailed]).2
  = [1 * Time.Second; 2 * Time.Second; 10 * Time.Minute; 4 * Time.Second].
Proof.
  cbv zeta. repeat split; try (vm_compute; reflexivity).
  vm_compute. discriminate.
Qed.

(** C5, amended: from the start of the loop, the waits of up to 34
    consecutive cold-start failures are 1 s, 2 s, 4 s, ..., the k-th
    (from 0) being 2^k seconds; and a fetch without error leaves the
    back-off where it was, it does not reset it. *)
Theorem C5_backoff_doubles `{E : Engine} (rs : list HTTPResult)
    (Hfail : Forall failed rs) (Hlen : (length rs <= 34)%nat) :
  (fetchCertLoop initial rs).2 =
    map (fun k => 2 ^ Z.of_nat k * Time.Second) (seq 0 (length rs)) /\
  (forall (st : LoopState) (r : HTTPResult),
      (fetchCerts r).2 = None -> failExpiry (iteration st r).1 = failExpiry st).
Proof.
  split.
  - rewrite (cold_failures_waits rs initial Time.Second); try assumption.
    + apply map_ext_in. intros k Hk. apply in_seq in Hk.
      apply backoff_fits. lia.
    + reflexivity.
    + reflexivity.
  - intros st r Hr. unfold iteration.
    destruct (fetchCerts r) as [[newCerts expiry] err]. simpl in Hr. subst err.
    simpl. destruct (firstFetch st && (0 <? size newCerts)%nat); reflexivity.
Qed.

Lemma C5_backoff_doubles_witness :
  Forall (failed (E := Sample.engine)) [DoFailed; DoFailed; DoFailed] /\
  (length [DoFailed; DoFailed; DoFailed] <= 34)%nat /\
  (fetchCertLoop (E := Sample.engine) initial [DoFailed; DoFailed; DoFailed]).2
    = [1 * Time.Second; 2 * Time.Second; 4 * Time.Second].
Proof.
  assert (Hf : Forall (failed (E := Sample.engine)) [DoFailed; DoFailed; DoFailed]).
  { repeat constructor; discriminate. }
  assert (Hl : (length [DoFailed; DoFailed; DoFailed] <= 34)%nat) by (simpl; lia).
  split; [exact Hf|]. split; [exact Hl|].
  exact (proj1 (C5_backoff_doubles (E := Sample.engine) _ Hf Hl)).
Defined.

(** ** Parsing the certificates *)

Section Certificates.

Context `{E : Engine}.

(** What the certificate loop of fetchCerts computes: an error exactly
    when some certificate of the body does not parse, and otherwise the
    map of all the body's keys to their parsed certificates. *)
Lemma parseCerts_spec (body : gmap string string) :
  match parseCerts body with
  | Some parsed =>
      (forall k, parsed !! k = body !! k ≫= ParseRSAPublicKeyFromPEM) /\
      (forall k cert, body !! k = Some cert -> is_Some (ParseRSAPublicKeyFromPEM cert))
  | None =>
      exists k cert, body !! k = Some cert /\ ParseRSAPublicKeyFromPEM cert = None
  end.
Proof.
  unfold parseCerts.
  apply (map_fold_weak_ind (fun (r : option (gmap string PublicKey)) (m : gmap string string) =>
    match r with
    | Some parsed =>
        (forall k, parsed !! k = m !! k ≫= ParseRSAPublicKeyFromPEM) /\
        (forall k cert, m !! k = Some cert -> is_Some (ParseRSAPublicKeyFromPEM cert))
    | None =>
        exists k cert, m !! k = Some cert /\ ParseRSAPublicKeyFromPEM cert = None
    end)).
  - split.
    + intros k. rewrite !lookup_empty. reflexivity.
    + intros k cert Hk. rewrite lookup_empty in Hk. discriminate.
  - intros i x m r Hi IH. destruct r as [parsed|]; simpl.
    + destruct IH as [IH1 IH2].
      destruct (ParseRSAPublicKeyFromPEM x) as [pk|] eqn:Hx.
      * split.
        -- intros k. destruct (decide (i = k)) as [->|Hne].
           ++ rewrite !lookup_insert_eq. simpl. symmetry. exact Hx.
           ++ rewrite !lookup_insert_ne by assumption. apply IH1.
        -- intros k cert. destruct (decide (i = k)) as [->|Hne].
           ++ rewrite lookup_insert_eq. intros [= <-]. rewrite Hx. eauto.
           ++ rewrite lookup_insert_ne by assumption. apply IH2.
      * exists i, x. split; [apply lookup_insert_eq | exact Hx].
    + destruct IH as (k & cert & Hk & Hbad). exists k, cert. split; [|exact Hbad].
      rewrite lookup_insert_ne; [exact Hk|]. intros ->. congruence.
Qed.

Lemma parseCerts_bad (body : gmap string string) (k cert : string) :
  body !! k = Some cert -> ParseRSAPublicKeyFromPEM cert = None ->
  parseCerts body = None.
Proof.
  intros Hk Hbad. pose proof (parseCerts_spec body) as H.
  destruct (parseCerts body) as [parsed|]; [|reflexivity].
  destruct H as [_ H2]. destruct (H2 k cert Hk) as [pk Hpk]. congruence.
Qed.

End Certificates.

(** C9: when one certificate of a fetched body does not parse, fetchCerts
    returns an error and no map, whatever the other certificates are,
    and the iteration of the loop leaves the published map as it was:
    no map holding only the certificates that did parse is published. *)
Theorem C9_parsing_all_or_nothing `{E : Engine} (st : LoopState)
    (body : gmap string string) (cacheControl k cert : string)
    (Hk : body !! k = Some cert) (Hbad : ParseRSAPublicKeyFromPEM cert = None) :
  fetchCerts (Response (Some body) cacheControl) = (∅, 0, Some ErrCertificate) /\
  certs (iteration st (Response (Some body) cacheControl)).1 = certs st.
Proof.
  assert (Hf : fetchCerts (Response (Some body) cacheControl) = (∅, 0, Some ErrCertificate)).
  { simpl. rewrite (parseCerts_bad body k cert Hk Hbad). reflexivity. }
  split; [exact Hf|].
  apply (iteration_failed_certs st _ ErrCertificate). rewrite Hf. reflexivity.
Qed.

Lemma C9_parsing_all_or_nothing_witness :
  let body : gmap string string := <["k2" := "bad"]> {["k1" := "cert"]} in
  let st := (iteration (E := Sample.engine) initial Sample.oneKey).1 in
  body !! "k2" = Some "bad" /\
  ParseRSAPublicKeyFromPEM (Engine := Sample.engine) "bad" = None /\
  fetchCerts (E := Sample.engine) (Response (Some body) "max-age=120")
    = (∅, 0, Some ErrCertificate) /\
  certs (iteration st (Response (Some body) "max-age=120")).1 = certs st.
Proof.
  cbv zeta. split; [reflexivity|]. split; [reflexivity|].
  apply (C9_parsing_all_or_nothing (E := Sample.engine) _ _ "max-age=120" "k2" "bad");
    reflexivity.
Defined.

(** ** The refresh interval of a response *)

Lemma digit_plain (c : ascii) (d : Z) :
  Strings.digit c = Some d ->
  negb (Strings.isSpace c) && negb (Ascii.eqb c ","%char) = true.
Proof.
  destruct c as [[] [] [] [] [] [] [] []]; vm_compute; congruence.
Qed.

Lemma digits_plain (s : string) : forall acc n,
  Strings.digits acc s = Some n -> plain s = true.
Proof.
  induction s as [|c s IH]; intros acc n H; [reflexivity|].
  cbn [Strings.digits] in H. cbn [plain].
  destruct (Strings.digit c) as [d|] eqn:Hd; [|discriminate].
  rewrite (digit_plain c d Hd). simpl. exact (IH _ _ H).
Qed.

Lemma Atoi_plain (s : string) (n : Z) : Strings.Atoi s = Some n -> plain s = true.
Proof.
  destruct s as [|c s]; [discriminate|]. unfold Strings.Atoi.
  destruct (Ascii.eqb c "-"%char) eqn:Hm.
  { apply Ascii.eqb_eq in Hm. subst c. destruct s as [|c' s']; [discriminate|].
    destruct (Strings.digits 0 (String c' s')) as [m|] eqn:Hd; [|discriminate].
    intros _. pose proof (digits_plain _ _ _ Hd) as Hpl.
    cbn [plain] in Hpl |- *. rewrite Hpl. reflexivity. }
  destruct (Ascii.eqb c "+"%char) eqn:Hp.
  { apply Ascii.eqb_eq in Hp. subst c. destruct s as [|c' s']; [discriminate|].
    destruct (Strings.digits 0 (String c' s')) as [m|] eqn:Hd; [|discriminate].
    intros _. pose proof (digits_plain _ _ _ Hd) as Hpl.
    cbn [plain] in Hpl |- *. rewrite Hpl. reflexivity. }
  destruct (Strings.digits 0 (String c s)) as [m|] eqn:Hd; [|discriminate].
  intros _. exact (digits_plain _ _ _ Hd).
Qed.

Lemma Split_plain (s : string) : plain s = true -> Strings.Split ","%char s = [s].
Proof.
  induction s as [|c s IH]; [reflexivity|]. cbn [plain Strings.Split].
  intros H. apply andb_prop in H as [H Hs]. apply andb_prop in H as [_ Hc].
  apply negb_true_iff in Hc. rewrite Hc, (IH Hs). reflexivity.
Qed.

(** *** Reversal *)

Lemma string_app_cons (x : ascii) (a b : string) : String x a ++ b = String x (a ++ b).
Proof. reflexivity. Qed.

Lemma string_app_assoc (a b c : string) : (a ++ b) ++ c = a ++ (b ++ c).
Proof.
  induction a as [|x a IH]; [reflexivity|]. rewrite !string_app_cons, IH. reflexivity.
Qed.


Lemma revAppend_app (a b acc : string) :
  Strings.revAppend (a ++ b) acc = Strings.revAppend b (Strings.revAppend a acc).
Proof.
  revert acc. induction a as [|x a IH]; intros acc; [reflexivity|].
  rewrite string_app_cons. cbn [Strings.revAppend]. apply IH.
Qed.

Lemma revAppend_revAppend (s acc acc' : string) :
  Strings.revAppend (Strings.revAppend s acc) acc' = Strings.revAppend acc (s ++ acc').
Proof.
  revert acc acc'. induction s as [|x s IH]; intros acc acc'; [reflexivity|].
  cbn [Strings.revAppend]. rewrite IH. reflexivity.
Qed.

(** *** The bytes of the white-space runes *)

Lemma isSpace_byte (c : ascii) :
  Strings.isSpace c = true ->
  (9 <= nat_of_ascii c <= 13)%nat \/ nat_of_ascii c = 32%nat.
Proof.
  unfold Strings.isSpace. cbv zeta.
  rewrite orb_true_iff, andb_true_iff, !Nat.leb_le, Nat.eqb_eq. tauto.
Qed.

Lemma isSpace2_bytes (c1 c2 : ascii) :
  Strings.isSpace2 c1 c2 = true ->
  nat_of_ascii c1 = 194%nat /\ (nat_of_ascii c2 = 133 \/ nat_of_ascii c2 = 160)%nat.
Proof.
  unfold Strings.isSpace2. cbv zeta.
  rewrite andb_true_iff, orb_true_iff, !Nat.eqb_eq. tauto.
Qed.

Lemma isSpace3_bytes (c1 c2 c3 : ascii) :
  Strings.isSpace3 c1 c2 c3 = true ->
  (225 <= nat_of_ascii c1 /\ 128 <= nat_of_ascii c2 <= 154 /\
   128 <= nat_of_ascii c3 <= 175)%nat.
Proof.
  unfold Strings.isSpace3. cbv zeta.
  rewrite !orb_true_iff, !andb_true_iff, !orb_true_iff, !andb_true_iff,
    !Nat.eqb_eq, !Nat.leb_le.
  lia.
Qed.

Lemma isSpace_low (c : ascii) :
  (nat_of_ascii c < 9 \/ 13 < nat_of_ascii c)%nat -> nat_of_ascii c <> 32%nat ->
  Strings.isSpace c = false.
Proof.
  intros H1 H2. unfold Strings.isSpace. cbv zeta.
  apply orb_false_iff. split; [|apply Nat.eqb_neq, H2].
  apply andb_false_iff. destruct H1 as [H1|H1]; [left | right]; apply Nat.leb_gt; lia.
Qed.

Lemma isSpace2_not (c1 c2 : ascii) :
  nat_of_ascii c1 <> 194%nat \/ (nat_of_ascii c2 <> 133 /\ nat_of_ascii c2 <> 160)%nat ->
  Strings.isSpace2 c1 c2 = false.
Proof.
  intros H. destruct (Strings.isSpace2 c1 c2) eqn:Hs; [|reflexivity].
  apply isSpace2_bytes in Hs. lia.
Qed.

Lemma isSpace3_not (c1 c2 c3 : ascii) :
  (nat_of_ascii c1 < 225 \/ nat_of_ascii c2 < 128 \/ 154 < nat_of_ascii c2 \/
   nat_of_ascii c3 < 128 \/ 175 < nat_of_ascii c3)%nat ->
  Strings.isSpace3 c1 c2 c3 = false.
Proof.
  intros H. destruct (Strings.isSpace3 c1 c2 c3) eqn:Hs; [|reflexivity].
  apply isSpace3_bytes in Hs. lia.
Qed.

Lemma digit_byte (d : ascii) (v : Z) :
  Strings.digit d = Some v -> (48 <= nat_of_ascii d <= 57)%nat.
Proof.
  unfold Strings.digit. cbv zeta.
  destruct ((48 <=? nat_of_ascii d)%nat && (nat_of_ascii d <=? 57)%nat) eqn:Hb;
    [|discriminate].
  intros _. apply andb_true_iff in Hb as [H1 H2].
  apply Nat.leb_le in H1. apply Nat.leb_le in H2. lia.
Qed.

(** A string that ends with a digit has no trailing white space. *)
Lemma trimReversed_digit (d : ascii) (v : Z) (rest : string) :
  Strings.digit d = Some v ->
  Strings.trimReversed (String d rest) = String d rest.
Proof.
  intros Hd. apply digit_byte in Hd. cbn [Strings.trimReversed].
  rewrite isSpace_low by lia.
  destruct rest as [|c2 [|c3 r3]]; try reflexivity.
  - rewrite isSpace2_not by lia. reflexivity.
  - rewrite isSpace2_not, isSpace3_not by lia. reflexivity.
Qed.

(** Trailing white space is trimmed whatever stands before it. *)
Lemma trimReversed_blank (ws : string) :
  blank ws ->
  forall t, Strings.trimReversed (Strings.revAppend ws t) = Strings.trimReversed t.
Proof.
  induction 1 as [|c rest Hc _ IH|c1 c2 rest Hc _ IH|c1 c2 c3 rest Hc _ IH];
    intros t; cbn [Strings.revAppend].
  - reflexivity.
  - rewrite IH. cbn [Strings.trimReversed]. rewrite Hc. reflexivity.
  - rewrite IH. cbn [Strings.trimReversed].
    pose proof (isSpace2_bytes _ _ Hc) as Hb.
    rewrite isSpace_low by lia. rewrite Hc. reflexivity.
  - rewrite IH. cbn [Strings.trimReversed].
    pose proof (isSpace3_bytes _ _ _ Hc) as Hb.
    rewrite isSpace_low by lia. rewrite isSpace2_not by lia.
    rewrite Hc. reflexivity.
Qed.

(** Leading white space is trimmed whatever follows it. *)
Lemma TrimLeft_blank (ws : string) :
  blank ws -> forall t, Strings.TrimLeft (ws ++ t) = Strings.TrimLeft t.
Proof.
  induction 1 as [|c rest Hc _ IH|c1 c2 rest Hc _ IH|c1 c2 c3 rest Hc _ IH];
    intros t.
  - reflexivity.
  - rewrite string_app_cons. cbn [Strings.TrimLeft]. rewrite Hc. apply IH.
  - rewrite !string_app_cons. cbn [Strings.TrimLeft].
    pose proof (isSpace2_bytes _ _ Hc) as Hb.
    rewrite isSpace_low by lia. rewrite Hc. apply IH.
  - rewrite !string_app_cons. cbn [Strings.TrimLeft].
    pose proof (isSpace3_bytes _ _ _ Hc) as Hb.
    rewrite isSpace_low by lia. rewrite isSpace2_not by lia.
    rewrite Hc. apply IH.
Qed.

(** *** The value of a directive ends with a digit *)

Lemma digits_last (s : string) : forall acc n,
  Strings.digits acc s = Some n ->
  s = "" \/ exists s' d v, s = s' ++ String d "" /\ Strings.digit d = Some v.
Proof.
  induction s as [|c s IH]; intros acc n H; [left; reflexivity|]. right.
  cbn [Strings.digits] in H.
  destruct (Strings.digit c) as [v|] eqn:Hc; [|discriminate].
  destruct (IH _ _ H) as [->|(s' & d & w & -> & Hd)].
  - exists "", c, v. split; [reflexivity | exact Hc].
  - exists (String c s'), d, w. split; [reflexivity | exact Hd].
Qed.

Lemma Atoi_last (s : string) (n : Z) :
  Strings.Atoi s = Some n ->
  exists s' d v, s = s' ++ String d "" /\ Strings.digit d = Some v.
Proof.
  destruct s as [|c s]; [discriminate|]. unfold Strings.Atoi.
  assert (Hsign : forall body m, body <> "" -> Strings.digits 0 body = Some m ->
            forall x, exists s' d v,
              String x body = s' ++ String d "" /\ Strings.digit d = Some v).
  { intros body m Hne Hd x.
    destruct (digits_last _ _ _ Hd) as [->|(s' & d & v & -> & Hv)]; [contradiction|].
    exists (String x s'), d, v. split; [reflexivity | exact Hv]. }
  destruct (Ascii.eqb c "-"%char).
  { destruct s as [|c' s']; [discriminate|].
    destruct (Strings.digits 0 (String c' s')) as [m|] eqn:Hd; [|discriminate].
    intros _. apply (Hsign _ m); [discriminate | exact Hd]. }
  destruct (Ascii.eqb c "+"%char).
  { destruct s as [|c' s']; [discriminate|].
    destruct (Strings.digits 0 (String c' s')) as [m|] eqn:Hd; [|discriminate].
    intros _. apply (Hsign _ m); [discriminate | exact Hd]. }
  destruct (Strings.digits 0 (String c s)) as [m|] eqn:Hd; [|discriminate].
  intros _. destruct (digits_last _ _ _ Hd) as [Habs|H]; [discriminate | exact H].
Qed.

(** White space around a max-age directive is trimmed away, and nothing
    else is. *)
Lemma TrimSpace_max_age (ws1 ws2 s : string) (n : Z) :
  blank ws1 -> blank ws2 -> Strings.Atoi s = Some n ->
  Strings.TrimSpace (ws1 ++ "max-age=" ++ s ++ ws2) = "max-age=" ++ s.
Proof.
  intros H1 H2 Hn. unfold Strings.TrimSpace.
  rewrite (TrimLeft_blank ws1 H1).
  change (Strings.TrimLeft ("max-age=" ++ s ++ ws2)) with ("max-age=" ++ s ++ ws2).
  destruct (Atoi_last s n Hn) as (s' & d & v & -> & Hd).
  unfold Strings.TrimRight, Strings.reverse.
  rewrite <- !string_app_assoc. rewrite revAppend_app.
  rewrite (trimReversed_blank ws2 H2).
  rewrite revAppend_app. cbn [Strings.revAppend].
  rewrite (trimReversed_digit d v _ Hd).
  cbn [Strings.revAppend]. rewrite revAppend_revAppend. reflexivity.
Qed.


Lemma scan_other_directives (pre rest : list string) (expiry : Time.Duration) :
  Forall otherDirective pre ->
  scanMaxAge (pre ++ rest) expiry = scanMaxAge rest expiry.
Proof.
  induction 1 as [|p pre Hp _ IH]; [reflexivity|].
  rewrite <- app_comm_cons. cbn [scanMaxAge].
  unfold otherDirective in Hp. rewrite Hp. exact IH.
Qed.



Lemma scan_until_last (pre rest : list string) (expiry : Time.Duration) :
  Forall (fun p => otherDirective p \/ exists m, maxAgeDirective p m) pre ->
  exists expiry', scanMaxAge (pre ++ rest) expiry = scanMaxAge rest expiry'.
Proof.
  intros Hpre. revert expiry.
  induction Hpre as [|p pre Hp _ IH]; intros expiry; [exists expiry; reflexivity|].
  rewrite <- app_comm_cons. cbn [scanMaxAge].
  destruct Hp as [Ho | (m & Hpre & Hm)].
  - unfold otherDirective in Ho. rewrite Ho. apply IH.
  - rewrite Hpre, Hm. apply IH.
Qed.

(** The scan up to and past the last max-age directive. *)
Lemma scan_last_directive (pre post : list string) (part : string) (n : Z)
    (expiry : Time.Duration) :
  Forall (fun p => otherDirective p \/ exists m, maxAgeDirective p m) pre ->
  maxAgeDirective part n ->
  Forall otherDirective post ->
  scanMaxAge (pre ++ part :: post) expiry = Int64.mul n Time.Second.
Proof.
  intros Hpre [Hp Hn] Hpost.
  destruct (scan_until_last pre (part :: post) expiry Hpre) as [e He].
  rewrite He. cbn [scanMaxAge]. rewrite Hp, Hn.
  rewrite <- (app_nil_r post), (scan_other_directives post [] _ Hpost).
  reflexivity.
Qed.

(** The sanity check on the seconds of a directive, while they fit a
    Duration. *)
Lemma checked_seconds (n : Z) :
  -9223372036 <= n <= 9223372036 ->
  (if Int64.mul n Time.Second <? 0 then 10 * Time.Minute else Int64.mul n Time.Second)
  = if n <? 0 then 10 * Time.Minute else n * Time.Second.
Proof.
  intros Hn. unfold Int64.mul. rewrite wrap_small.
  - destruct (Z.ltb_spec (n * Time.Second) 0) as [H|H];
      destruct (Z.ltb_spec n 0) as [H'|H']; try reflexivity;
      unfold Time.Second in H; lia.
  - unfold Int64.min_signed, Int64.max_signed, Time.Second.
    change (2 ^ 63) with 9223372036854775808. lia.
Qed.



(** ** Verify *)

Section VerifyFacts.

Context `{E : Engine}.

Lemma run_RLock {A} (w : World) (k : gmap string PublicKey -> VerifyM A) :
  run w (RLock k) = (EvRLock :: (run w (k (wCerts w))).1, (run w (k (wCerts w))).2).
Proof. cbn [run]. destruct (run w (k (wCerts w))). reflexivity. Qed.

Lemma run_Now {A} (w : World) (k : Time.Time -> VerifyM A) :
  run w (Now k) = (EvNow :: (run w (k (wNow w))).1, (run w (k (wNow w))).2).
Proof. cbn [run]. destruct (run w (k (wNow w))). reflexivity. Qed.

Lemma run_Select_done {A} (w : World) (k : SelectResult -> VerifyM A) (e : ContextError) :
  wSelect w = inl e ->
  run w (Select k) = (EvSelect :: (run w (k (CtxDone e))).1, (run w (k (CtxDone e))).2).
Proof. intros H. cbn [run]. rewrite H. destruct (run w (k (CtxDone e))). reflexivity. Qed.

Lemma run_Select_certs {A} (w : World) (k : SelectResult -> VerifyM A)
    (certs' : gmap string PublicKey) :
  wSelect w = inr certs' ->
  let w' := {| wCerts := certs'; wSelect := wSelect w; wNow := wNow w |} in
  run w (Select k) =
  (EvSelect :: (run w' (k HaveCertsClosed)).1, (run w' (k HaveCertsClosed)).2).
Proof.
  intros H. cbn [run]. rewrite H. cbv zeta. rewrite <- H.
  destruct (run _ (k HaveCertsClosed)). reflexivity.
Qed.

Lemma size_eqb_lookup {A} (m : gmap string A) (k : string) (x : A) :
  m !! k = Some x -> (size m =? 0)%nat = false.
Proof.
  intros Hk. apply Nat.eqb_neq. intros Hs. apply map_size_empty_iff in Hs.
  subst m. rewrite lookup_empty in Hk. discriminate.
Qed.

Lemma size_eqb_empty {A} (m : gmap string A) : m = ∅ -> (size m =? 0)%nat = true.
Proof. intros ->. reflexivity. Qed.

(** A token whose header passes goes on to the lookup of its key. *)
Lemma Verify_header_ok (v : Verifier) (token : list Byte.byte) (tok : JWS) (kid : string) :
  ParseCompact token = inr tok ->
  Protected tok !! "alg" = Some (VString "RS256") ->
  Protected tok !! "kid" = Some (VString kid) ->
  Verify v token = lookupKey v tok kid.
Proof.
  intros Hp Ha Hk. unfold Verify, Get. rewrite Hp, Ha, Hk. reflexivity.
Qed.

(** A token whose header fails returns without any operation. *)
Lemma Verify_header_failure (v : Verifier) (token : list Byte.byte) (e : error) :
  HeaderFailure token e -> Verify v token = Ret (inr e).
Proof.
  intros [err Hp | tok Hp Ha | tok Hp Ha Hk]; unfold Verify; rewrite Hp.
  - reflexivity.
  - destruct (Get (Protected tok) "alg") as [| | |alg|] eqn:Hg; try reflexivity.
    cbn [assertString fst negb orb].
    destruct (String.eqb_spec alg "RS256") as [->|Hne]; [congruence|reflexivity].
  - rewrite Ha. cbn [assertString]. cbn.
    destruct (Get (Protected tok) "kid") as [| | |kid|] eqn:Hg; try reflexivity.
    exfalso. exact (Hk kid eq_refl).
Qed.

(** The lookup in a map that holds keys: one read, no wait. *)
Lemma run_lookupKey_nonempty (v : Verifier) (tok : JWS) (kid : string) (w : World) :
  (size (wCerts w) =? 0)%nat = false ->
  run w (lookupKey v tok kid) =
  (EvRLock :: (run w (withKey v tok kid (wCerts w !! kid))).1,
   (run w (withKey v tok kid (wCerts w !! kid))).2).
Proof. intros Hs. unfold lookupKey. rewrite run_RLock, Hs. reflexivity. Qed.

(** The lookup in an empty map when the context is done first. *)
Lemma run_lookupKey_cancelled (v : Verifier) (tok : JWS) (kid : string) (w : World)
    (e : ContextError) :
  wCerts w = ∅ -> wSelect w = inl e ->
  run w (lookupKey v tok kid) = ([EvRLock; EvSelect], inr (contextError e)).
Proof.
  intros Hc Hs. unfold lookupKey.
  rewrite run_RLock, (size_eqb_empty _ Hc), (run_Select_done _ _ e Hs). reflexivity.
Qed.

(** The lookup in an empty map when [haveCerts] is closed first: one
    more read, and one lookup in the map it sees. *)
Lemma run_lookupKey_waited (v : Verifier) (tok : JWS) (kid : string) (w : World)
    (certs' : gmap string PublicKey) :
  wCerts w = ∅ -> wSelect w = inr certs' ->
  let w' := {| wCerts := certs'; wSelect := wSelect w; wNow := wNow w |} in
  run w (lookupKey v tok kid) =
  (EvRLock :: EvSelect :: EvRLock :: (run w' (withKey v tok kid (certs' !! kid))).1,
   (run w' (withKey v tok kid (certs' !! kid))).2).
Proof.
  intros Hc Hs. cbv zeta. unfold lookupKey.
  rewrite run_RLock, (size_eqb_empty _ Hc), (run_Select_certs _ _ certs' Hs).
  cbv zeta. rewrite run_RLock. reflexivity.
Qed.

End VerifyFacts.

(** C10: a token that fails to parse, that does not declare RS256, or
    that carries no string key id is answered with the error of that
    check by a Verify that performs no operation at all: no read of the
    certificate map, no wait on [haveCerts], no clock read.  So its
    result is the same in every world, also one in which no map was ever
    published and the context is done. *)
Theorem C10_header_failures_skip_the_cache `{E : Engine} (v : Verifier)
    (token : list Byte.byte) (e : error) (Hfail : HeaderFailure token e) :
  Verify v token = Ret (inr e) /\
  (forall w : World, run w (Verify v token) = ([], inr e)) /\
  (forall w w' : World, run w (Verify v token) = run w' (Verify v token)).
Proof.
  pose proof (Verify_header_failure v token e Hfail) as Hv.
  split; [exact Hv|]. rewrite Hv. split; reflexivity.
Qed.

Lemma C10_header_failures_skip_the_cache_witness :
  HeaderFailure (E := Sample.engine) [Byte.x01] (Failure.UnsupportedAlgorithm "HS256") /\
  forall w : World (E := Sample.engine),
    run w (Verify Sample.verifier [Byte.x01])
    = ([], inr (Failure.UnsupportedAlgorithm "HS256")).
Proof.
  assert (H : HeaderFailure (E := Sample.engine) [Byte.x01]
                (Failure.UnsupportedAlgorithm "HS256")).
  { pose proof (FailAlg (E := Sample.engine) [Byte.x01]
                  {| Sample.header := {["alg" := VString "HS256"]};
                     Sample.payload := PayloadClaims ∅; Sample.signer := 3%nat |}
                  eq_refl) as H.
    change (Get _ "alg") with (VString "HS256") in H.
    apply H. discriminate. }
  split; [exact H|].
  exact (proj1 (proj2 (C10_header_failures_skip_the_cache
                         (E := Sample.engine) Sample.verifier [Byte.x01] _ H))).
Defined.

(** C6: a call whose token passes the header checks, made while the
    loop has not yet fired its signal, finds the map empty and waits in
    the select.  When the context is done first it returns the context's
    error.  When [haveCerts] is closed first it takes the lock once more
    and looks the key id up once, in the map it then sees: an absent key
    id gives the unknown-kid error, and otherwise the call goes on with
    the key found.  After the first load a key id absent from a
    non-empty map gives the unknown-kid error with no wait. *)
Theorem C6_wait_then_one_lookup `{E : Engine} (v : Verifier) (token : list Byte.byte)
    (tok : JWS) (kid : string) (st : LoopState) (now : Time.Time)
    (Hparse : ParseCompact token = inr tok)
    (Halg : Protected tok !! "alg" = Some (VString "RS256"))
    (Hkid : Protected tok !! "kid" = Some (VString kid))
    (Hreach : reachable st) (Hcold : haveCerts st = false) :
  (forall e : ContextError,
      run {| wCerts := certs st; wSelect := inl e; wNow := now |} (Verify v token)
      = ([EvRLock; EvSelect], inr (Failure.ContextCancelled e))) /\
  (forall certs' : gmap string PublicKey,
      certs' !! kid = None ->
      run {| wCerts := certs st; wSelect := inr certs'; wNow := now |} (Verify v token)
      = ([EvRLock; EvSelect; EvRLock], inr (Failure.UnknownKeyID kid))) /\
  (forall certs' : gmap string PublicKey,
      let w := {| wCerts := certs st; wSelect := inr certs'; wNow := now |} in
      let w' := {| wCerts := certs'; wSelect := inr certs'; wNow := now |} in
      run w (Verify v token) =
      (EvRLock :: EvSelect :: EvRLock :: (run w' (withKey v tok kid (certs' !! kid))).1,
       (run w' (withKey v tok kid (certs' !! kid))).2)) /\
  (forall (st' : LoopState) (sel : ContextError + gmap string PublicKey),
      reachable st' -> certs st' <> ∅ -> certs st' !! kid = None ->
      run {| wCerts := certs st'; wSelect := sel; wNow := now |} (Verify v token)
      = ([EvRLock], inr (Failure.UnknownKeyID kid))).
Proof.
  rewrite (Verify_header_ok v token tok kid Hparse Halg Hkid).
  assert (Hempty : certs st = ∅).
  { destruct (reachable_signal_inv st Hreach) as [_ Hne].
    destruct (decide (certs st = ∅)) as [Heq|Hn]; [exact Heq|].
    specialize (Hne Hn). congruence. }
  split; [|split; [|split]].
  - intros e. apply run_lookupKey_cancelled; [exact Hempty | reflexivity].
  - intros certs' Hnone.
    rewrite (run_lookupKey_waited v tok kid
               {| wCerts := certs st; wSelect := inr certs'; wNow := now |}
               certs' Hempty eq_refl).
    cbv zeta. cbn [wSelect wNow]. rewrite Hnone. reflexivity.
  - intros certs'. cbv zeta.
    rewrite (run_lookupKey_waited v tok kid
               {| wCerts := certs st; wSelect := inr certs'; wNow := now |}
               certs' Hempty eq_refl). reflexivity.
  - intros st' sel _ Hne Hnone.
    rewrite run_lookupKey_nonempty.
    + cbn [wCerts]. rewrite Hnone. reflexivity.
    + cbn [wCerts]. apply Nat.eqb_neq. rewrite map_size_empty_iff. exact Hne.
Qed.

Lemma C6_wait_then_one_lookup_witness :
  let tok := {| Sample.header := Sample.rs256 "k9";
                Sample.payload := PayloadClaims (Sample.goodClaims 1000 900);
                Sample.signer := 4%nat |} in
  ParseCompact (Engine := Sample.engine) [Byte.x04] = inr tok /\
  Protected (Engine := Sample.engine) tok !! "alg" = Some (VString "RS256") /\
  Protected (Engine := Sample.engine) tok !! "kid" = Some (VString "k9") /\
  reachable (E := Sample.engine) initial /\
  haveCerts (E := Sample.engine) initial = false /\
  run (E := Sample.engine)
      {| wCerts := certs initial; wSelect := inl DeadlineExceeded; wNow := 5 |}
      (Verify Sample.verifier [Byte.x04])
  = ([EvRLock; EvSelect], inr (Failure.ContextCancelled DeadlineExceeded)).
Proof.
  cbv zeta. repeat (split; [reflexivity || apply reachable_initial|]).
  refine (proj1 (C6_wait_then_one_lookup (E := Sample.engine) Sample.verifier
                   [Byte.x04] _ "k9" initial 5 eq_refl _ _ reachable_initial eq_refl)
                DeadlineExceeded); reflexivity.
Defined.

(** ** The claims *)

Lemma assertString_claim (claims : gmap string Value) (name : string) :
  (assertString (Get claims name)).1 = claimString claims name.
Proof.
  unfold Get, claimString. destruct (claims !! name) as [[]|]; reflexivity.
Qed.

Lemma assertBool_claim (claims : gmap string Value) (name : string) :
  (assertBool (Get claims name)).1 = claimBool claims name.
Proof.
  unfold Get, claimBool. destruct (claims !! name) as [[]|]; reflexivity.
Qed.

(** Claims that pass every check of step 2 give the User. *)
Lemma checkClaims_ok (v : Verifier) (claims : gmap string Value) (now : Time.Time)
    (exp iat : Z) (sub : string) :
  claims !! "exp" = Some (VNumber exp) -> Time.Before (Time.Unix exp) now = false ->
  claims !! "iat" = Some (VNumber iat) -> Time.After (Time.Unix iat) now = false ->
  claims !! "aud" = Some (VString (projectID v)) ->
  claims !! "iss" = Some (VString (issuer v)) ->
  claims !! "sub" = Some (VString sub) ->
  claims !! "user_id" = Some (VString sub) ->
  sub <> "" ->
  checkClaims v claims now =
  inl {| ID := sub;
         SignInProvider := claimString claims "sign_in_provider";
         EmailVerified := claimBool claims "email_verified";
         Email := claimString claims "email" |}.
Proof.
  intros Hexp Hexp' Hiat Hiat' Haud Hiss Hsub Huid Hne.
  unfold checkClaims, Expiration, IssuedAt, GetTime.
  rewrite !assertString_claim, assertBool_claim.
  unfold Get. rewrite Hexp, Hiat, Haud, Hiss.
  cbn [default from_option id assertString]. rewrite Hexp', Hiat'.
  assert (Hs : claimString claims "sub" = sub)
    by (unfold claimString; rewrite Hsub; reflexivity).
  assert (Hu : claimString claims "user_id" = sub)
    by (unfold claimString; rewrite Huid; reflexivity).
  rewrite Hs, Hu, !String.eqb_refl.
  apply String.eqb_neq in Hne. rewrite Hne. reflexivity.
Qed.

(** When step 2 answers that the token is expired. *)
Lemma checkClaims_expired (v : Verifier) (claims : gmap string Value) (now : Time.Time) :
  checkClaims v claims now = inr (New "auth: expired token") <->
  match Expiration claims with
  | Some exp => exp < now
  | None => True
  end.
Proof.
  unfold checkClaims.
  destruct (Expiration claims) as [exp|].
  - unfold Time.Before. destruct (Z.ltb_spec exp now) as [Hlt|Hge].
    + split; [intros _; exact Hlt | reflexivity].
    + split; [|lia].
      destruct (match IssuedAt claims with
                | Some iat => Time.After iat now | None => true end);
        [discriminate|].
      destruct (assertString (Get claims "aud")) as [aud ok1].
      destruct (negb ok1 || negb (String.eqb aud (projectID v))); [discriminate|].
      destruct (assertString (Get claims "iss")) as [iss ok2].
      destruct (negb ok2 || negb (String.eqb iss (issuer v))); [discriminate|].
      cbv zeta.
      destruct (String.eqb _ "" || String.eqb _ "" || negb (String.eqb _ _));
        discriminate.
  - split; [intros _; exact I | reflexivity].
Qed.

(** C8: a call whose token parses, declares RS256 and a key id, finds
    its key (at once, or after the wait), passes the signature check and
    carries claims that pass every check of step 2, returns a User whose
    ID is the subject claim and whose Email, EmailVerified and
    SignInProvider are those claims when present with the right type and
    the empty string or false otherwise; the optional claims never make
    the call fail. *)
Theorem C8_user_from_claims `{E : Engine} (v : Verifier) (token : list Byte.byte)
    (tok : JWS) (kid : string) (key : PublicKey) (claims : gmap string Value)
    (w : World) (exp iat : Z) (sub : string)
    (Hparse : ParseCompact token = inr tok)
    (Halg : Protected tok !! "alg" = Some (VString "RS256"))
    (Hkid : Protected tok !! "kid" = Some (VString kid))
    (Hkey : wCerts w !! kid = Some key \/
            (wCerts w = ∅ /\ exists certs', wSelect w = inr certs' /\
                                            certs' !! kid = Some key))
    (Hsig : jwsVerify tok key = None)
    (Hpayload : Payload tok = PayloadClaims claims)
    (Hexp : claims !! "exp" = Some (VNumber exp))
    (Hlive : Time.Before (Time.Unix exp) (wNow w) = false)
    (Hiat : claims !! "iat" = Some (VNumber iat))
    (Hpast : Time.After (Time.Unix iat) (wNow w) = false)
    (Haud : claims !! "aud" = Some (VString (projectID v)))
    (Hiss : claims !! "iss" = Some (VString (issuer v)))
    (Hsub : claims !! "sub" = Some (VString sub))
    (Huid : claims !! "user_id" = Some (VString sub))
    (Hne : sub <> "") :
  (run w (Verify v token)).2 =
  inl {| ID := sub;
         SignInProvider := claimString claims "sign_in_provider";
         EmailVerified := claimBool claims "email_verified";
         Email := claimString claims "email" |}.
Proof.
  rewrite (Verify_header_ok v token tok kid Hparse Halg Hkid).
  pose proof (checkClaims_ok v claims (wNow w) exp iat sub
                Hexp Hlive Hiat Hpast Haud Hiss Hsub Huid Hne) as Hc.
  destruct Hkey as [Hk | (Hempty & certs' & Hsel & Hk)].
  - rewrite (run_lookupKey_nonempty v tok kid w (size_eqb_lookup _ _ _ Hk)).
    cbn [snd]. rewrite Hk. cbn [withKey]. rewrite Hsig, Hpayload, run_Now.
    cbn [snd run]. exact Hc.
  - rewrite (run_lookupKey_waited v tok kid w certs' Hempty Hsel).
    cbv zeta. cbn [snd]. rewrite Hk. cbn [withKey].
    rewrite Hsig, Hpayload, run_Now. cbn [snd run wNow]. exact Hc.
Qed.

Lemma C8_user_from_claims_witness :
  run (E := Sample.engine) (Sample.world (Time.Unix 950))
      (Verify Sample.verifier [Byte.x03])
  = ([EvRLock; EvNow],
     inl {| ID := "sub"; SignInProvider := ""; EmailVerified := true;
            Email := "foo@example.com" |}) /\
  (run (E := Sample.engine) (Sample.world (Time.Unix 950))
       (Verify Sample.verifier [Byte.x03])).2
  = inl {| ID := "sub";
           SignInProvider :=
             claimString (Sample.goodClaims 1000 900) "sign_in_provider";
           EmailVerified := claimBool (Sample.goodClaims 1000 900) "email_verified";
           Email := claimString (Sample.goodClaims 1000 900) "email" |}.
Proof.
  split; [vm_compute; reflexivity|].
  apply (C8_user_from_claims (E := Sample.engine) Sample.verifier [Byte.x03]
           {| Sample.header := Sample.rs256 "k1";
              Sample.payload := PayloadClaims (Sample.goodClaims 1000 900);
              Sample.signer := 4%nat |}
           "k1" 4%nat (Sample.goodClaims 1000 900) (Sample.world (Time.Unix 950))
           1000 900 "sub");
    try reflexivity.
  - left. reflexivity.
  - discriminate.
Defined.

(** C4: the code at the boundary.  Verify answers that the token is
    expired exactly when the exp claim is absent or lies strictly before
    the time read from the clock; a token whose exp is equal to that
    time passes the check. *)
Theorem C4_exp_equal_to_now_passes (v : Verifier) (claims : gmap string Value)
    (sec : Z) (Hexp : claims !! "exp" = Some (VNumber sec)) :
  checkClaims v claims (Time.Unix sec) <> inr Failure.Expired /\
  (forall now, checkClaims v claims now = inr Failure.Expired <-> Time.Unix sec < now).
Proof.
  assert (He : Expiration claims = Some (Time.Unix sec)).
  { unfold Expiration, GetTime, Get. rewrite Hexp. reflexivity. }
  assert (Hiff : forall now,
             checkClaims v claims now = inr Failure.Expired <-> Time.Unix sec < now).
  { intros now. unfold Failure.Expired. rewrite checkClaims_expired, He. reflexivity. }
  split; [|exact Hiff].
  intros H. apply Hiff in H. lia.
Qed.

Lemma C4_exp_equal_to_now_passes_witness :
  Sample.goodClaims 1000 900 !! "exp" = Some (VNumber 1000) /\
  checkClaims Sample.verifier (Sample.goodClaims 1000 900) (Time.Unix 1000)
    <> inr Failure.Expired /\
  run (E := Sample.engine) (Sample.world (Time.Unix 1000))
      (Verify Sample.verifier [Byte.x03])
  = ([EvRLock; EvNow],
     inl {| ID := "sub"; SignInProvider := ""; EmailVerified := true;
            Email := "foo@example.com" |}).
Proof.
  split; [reflexivity|]. split.
  - exact (proj1 (C4_exp_equal_to_now_passes Sample.verifier
                    (Sample.goodClaims 1000 900) 1000 eq_refl)).
  - vm_compute. reflexivity.
Defined.

(** ** The errors of Verify *)



Section VerifyErrors.

Context `{E : Engine}.



End VerifyErrors.




(** * Further properties of the verifier *)

(** ** Which claims are accepted *)

Lemma claim_string_inv (claims : gmap string Value) (name s : string) (ok : bool) :
  assertString (Get claims name) = (s, ok) ->
  (ok = true /\ claims !! name = Some (VString s)) \/ (ok = false /\ s = "").
Proof.
  unfold Get. destruct (claims !! name) as [[]|]; cbn; intros [= <- <-]; auto.
Qed.

Lemma claim_time_inv (claims : gmap string Value) (name : string) (t : Time.Time) :
  GetTime claims name = Some t ->
  exists sec, claims !! name = Some (VNumber sec) /\ t = Time.Unix sec.
Proof.
  unfold GetTime, Get. destruct (claims !! name) as [[]|]; cbn; try discriminate.
  intros [= <-]. eauto.
Qed.

(** The claims for which step 2 of Verify returns a User. *)
Lemma checkClaims_accepts (v : Verifier) (claims : gmap string Value)
    (now : Time.Time) (u : User) :
  checkClaims v claims now = inl u <->
  exists sub, acceptable v claims now sub /\ u = userOf claims sub.
Proof.
  split.
  - unfold checkClaims.
    destruct (Expiration claims) as [exp|] eqn:Hexp; [|discriminate].
    destruct (Time.Before exp now) eqn:Hb; [discriminate|].
    destruct (IssuedAt claims) as [iat|] eqn:Hiat; [|discriminate].
    destruct (Time.After iat now) eqn:Ha; [discriminate|].
    destruct (assertString (Get claims "aud")) as [aud ok1] eqn:Haud.
    destruct ok1; [|discriminate]. cbn [negb orb].
    destruct (String.eqb_spec aud (projectID v)) as [->|]; [|discriminate].
    destruct (assertString (Get claims "iss")) as [iss ok2] eqn:Hiss.
    destruct ok2; [|discriminate]. cbn [negb orb].
    destruct (String.eqb_spec iss (issuer v)) as [->|]; [|discriminate].
    cbv zeta.
    destruct (assertString (Get claims "sub")) as [sub ok3] eqn:Hsub.
    destruct (assertString (Get claims "user_id")) as [uid ok4] eqn:Huid.
    cbn [fst].
    destruct (String.eqb_spec sub "") as [|Hne]; [discriminate|].
    destruct (String.eqb_spec uid "") as [|Hne']; [discriminate|].
    destruct (String.eqb_spec sub uid) as [<-|]; [|discriminate].
    cbn [negb orb]. intros [= <-]. exists sub.
    apply claim_time_inv in Hexp as (e & He & ->).
    apply claim_time_inv in Hiat as (i & Hi & ->).
    unfold Time.Before in Hb. unfold Time.After in Ha.
    apply Z.ltb_ge in Hb. apply Z.ltb_ge in Ha.
    apply claim_string_inv in Haud as [[_ Haud]|[? _]]; [|discriminate].
    apply claim_string_inv in Hiss as [[_ Hiss]|[? _]]; [|discriminate].
    apply claim_string_inv in Hsub as [[_ Hsub]|[_ ?]]; [|contradiction].
    apply claim_string_inv in Huid as [[_ Huid]|[_ ?]]; [|contradiction].
    split.
    + unfold acceptable, expLive, iatPast, audOk, issOk, subIs. repeat split; eauto.
    + unfold userOf. rewrite !assertString_claim, assertBool_claim. reflexivity.
  - intros (sub & Hacc & ->).
    destruct Hacc as ((exp & Hexp & Hlive) & (iat & Hiat & Hpast) & Haud & Hiss
                      & Hsub & Huid & Hne).
    apply (checkClaims_ok v claims now exp iat sub); try assumption.
    + unfold Time.Before. apply Z.ltb_ge. exact Hlive.
    + unfold Time.After. apply Z.ltb_ge. exact Hpast.
Qed.

(** X1: Step 2 of Verify returns a User exactly for the claims it accepts:
    exp and iat numbers with now between them (both ends included), aud
    the project id, iss the issuer, sub and user_id one non-empty
    string; and the User is then the one built from those claims. *)
Theorem checkClaims_accepts_iff (v : Verifier) (claims : gmap string Value)
    (now : Time.Time) (u : User) :
  checkClaims v claims now = inl u <->
  exists sub, acceptable v claims now sub /\ u = userOf claims sub.
Proof. exact (checkClaims_accepts v claims now u). Qed.


Lemma checkClaims_accepts_iff_witness :
  acceptable Sample.verifier (Sample.goodClaims 1000 900) (Time.Unix 900) "sub" /\
  checkClaims Sample.verifier (Sample.goodClaims 1000 900) (Time.Unix 900)
  = inl (userOf (Sample.goodClaims 1000 900) "sub").
Proof.
  assert (H : acceptable Sample.verifier (Sample.goodClaims 1000 900) (Time.Unix 900) "sub").
  { unfold acceptable, expLive, iatPast, audOk, issOk, subIs.
    split; [exists 1000; split; [reflexivity | vm_compute; discriminate]|].
    split; [exists 900; split; [reflexivity | vm_compute; discriminate]|].
    repeat split; try reflexivity. discriminate. }
  split; [exact H|].
  apply (proj2 (checkClaims_accepts_iff Sample.verifier (Sample.goodClaims 1000 900)
                  (Time.Unix 900) _)).
  exists "sub". split; [exact H | reflexivity].
Defined.

(** ** Which error a rejected token gets *)

Lemma exp_test (claims : gmap string Value) (now : Time.Time) :
  match Expiration claims with
  | Some exp => Time.Before exp now
  | None => true
  end = false <-> expLive claims now.
Proof.
  unfold expLive. split.
  - destruct (Expiration claims) as [exp|] eqn:He; [|discriminate].
    apply claim_time_inv in He as (sec & Hs & ->).
    unfold Time.Before. rewrite Z.ltb_ge. eauto.
  - intros (sec & Hs & Hle). unfold Expiration, GetTime, Get. rewrite Hs. cbn.
    unfold Time.Before. apply Z.ltb_ge. exact Hle.
Qed.

Lemma iat_test (claims : gmap string Value) (now : Time.Time) :
  match IssuedAt claims with
  | Some iat => Time.After iat now
  | None => true
  end = false <-> iatPast claims now.
Proof.
  unfold iatPast. split.
  - destruct (IssuedAt claims) as [iat|] eqn:He; [|discriminate].
    apply claim_time_inv in He as (sec & Hs & ->).
    unfold Time.After. rewrite Z.ltb_ge. eauto.
  - intros (sec & Hs & Hle). unfold IssuedAt, GetTime, Get. rewrite Hs. cbn.
    unfold Time.After. apply Z.ltb_ge. exact Hle.
Qed.

Lemma string_test (claims : gmap string Value) (name want : string) :
  (let '(s, ok) := assertString (Get claims name) in
   negb ok || negb (String.eqb s want)) = false
  <-> claims !! name = Some (VString want).
Proof.
  unfold Get. destruct (claims !! name) as [[| | |s|]|]; cbn; try (split; discriminate).
  destruct (String.eqb_spec s want) as [->|Hne]; cbn.
  - split; reflexivity.
  - split; [discriminate | intros [= ->]; contradiction].
Qed.

Lemma claimString_nonempty (claims : gmap string Value) (name : string) :
  claimString claims name <> "" ->
  claims !! name = Some (VString (claimString claims name)).
Proof.
  unfold claimString. destruct (claims !! name) as [[| | |s|]|]; intros H;
    try reflexivity; exfalso; apply H; reflexivity.
Qed.

Lemma sub_test (claims : gmap string Value) :
  String.eqb (claimString claims "sub") ""
  || String.eqb (claimString claims "user_id") ""
  || negb (String.eqb (claimString claims "sub") (claimString claims "user_id")) = false
  <-> subIs claims (claimString claims "user_id").
Proof.
  unfold subIs. split.
  - intros H. apply orb_false_elim in H as [H Hsu].
    apply orb_false_elim in H as [Hs Hu].
    apply negb_false_iff in Hsu.
    apply String.eqb_neq in Hs. apply String.eqb_neq in Hu. apply String.eqb_eq in Hsu.
    repeat split.
    + rewrite <- Hsu. apply claimString_nonempty, Hs.
    + apply claimString_nonempty, Hu.
    + exact Hu.
  - intros (Hs & _ & Hne).
    assert (Hs' : claimString claims "sub" = claimString claims "user_id").
    { unfold claimString at 1. rewrite Hs. reflexivity. }
    rewrite Hs', String.eqb_refl.
    apply String.eqb_neq in Hne. rewrite Hne. reflexivity.
Qed.

Lemma subIs_claim (claims : gmap string Value) (sub : string) :
  subIs claims sub -> claimString claims "user_id" = sub.
Proof. intros (_ & Hu & _). unfold claimString. rewrite Hu. reflexivity. Qed.

(** Step 2 of Verify as one chain of tests. *)
Lemma checkClaims_chain (v : Verifier) (claims : gmap string Value) (now : Time.Time) :
  checkClaims v claims now =
  if match Expiration claims with
     | Some exp => Time.Before exp now | None => true end
  then inr Failure.Expired
  else if match IssuedAt claims with
          | Some iat => Time.After iat now | None => true end
  then inr Failure.IssuedInFuture
  else if (let '(s, ok) := assertString (Get claims "aud") in
           negb ok || negb (String.eqb s (projectID v)))
  then inr (Failure.AudienceMismatch (claimString claims "aud"))
  else if (let '(s, ok) := assertString (Get claims "iss") in
           negb ok || negb (String.eqb s (issuer v)))
  then inr (Failure.IssuerMismatch (claimString claims "iss"))
  else if String.eqb (claimString claims "sub") ""
          || String.eqb (claimString claims "user_id") ""
          || negb (String.eqb (claimString claims "sub") (claimString claims "user_id"))
  then inr (Failure.SubjectMismatch (claimString claims "sub")
                                    (claimString claims "user_id"))
  else inl (userOf claims (claimString claims "user_id")).
Proof.
  unfold checkClaims, userOf.
  rewrite <- !assertString_claim, <- !assertBool_claim.
  destruct (match Expiration claims with
            | Some exp => Time.Before exp now | None => true end); [reflexivity|].
  destruct (match IssuedAt claims with
            | Some iat => Time.After iat now | None => true end); [reflexivity|].
  destruct (assertString (Get claims "aud")) as [aud ok1].
  destruct (negb ok1 || negb (String.eqb aud (projectID v))); [reflexivity|].
  destruct (assertString (Get claims "iss")) as [iss ok2].
  destruct (negb ok2 || negb (String.eqb iss (issuer v))); reflexivity.
Qed.

(** X2: The checks of step 2 run in the order exp, iat, aud, iss, sub, and
    the first one that fails decides the error: a rejected token gets
    the error of its first failing check, with the offending aud, iss or
    sub and user_id as the claims hold them (the empty string for one
    that is absent or not a string). *)
Theorem checkClaims_first_failure (v : Verifier) (claims : gmap string Value)
    (now : Time.Time) (e : error) :
  checkClaims v claims now = inr e <->
  (~ expLive claims now /\ e = Failure.Expired) \/
  (expLive claims now /\ ~ iatPast claims now /\ e = Failure.IssuedInFuture) \/
  (expLive claims now /\ iatPast claims now /\ ~ audOk v claims /\
   e = Failure.AudienceMismatch (claimString claims "aud")) \/
  (expLive claims now /\ iatPast claims now /\ audOk v claims /\ ~ issOk v claims /\
   e = Failure.IssuerMismatch (claimString claims "iss")) \/
  (expLive claims now /\ iatPast claims now /\ audOk v claims /\ issOk v claims /\
   ~ (exists sub, subIs claims sub) /\
   e = Failure.SubjectMismatch (claimString claims "sub") (claimString claims "user_id")).
Proof.
  rewrite checkClaims_chain.
  pose proof (exp_test claims now) as HE.
  pose proof (iat_test claims now) as HI.
  pose proof (string_test claims "aud" (projectID v)) as HA.
  pose proof (string_test claims "iss" (issuer v)) as HS.
  pose proof (sub_test claims) as HU.
  fold (audOk v claims) in HA. fold (issOk v claims) in HS.
  assert (HU' : (exists sub, subIs claims sub) ->
                subIs claims (claimString claims "user_id")).
  { intros (sub & Hs). rewrite (subIs_claim claims sub Hs). exact Hs. }
  destruct (match Expiration claims with
            | Some exp => Time.Before exp now | None => true end).
  { split; [intros [= <-]; left; split; [|reflexivity]; intros H; apply HE in H; discriminate|].
    intros [[_ ->]|[[H _]|[[H _]|[[H _]|[H _]]]]]; try reflexivity;
      apply HE in H; discriminate. }
  assert (HE1 : expLive claims now) by (apply HE; reflexivity). clear HE.
  destruct (match IssuedAt claims with
            | Some iat => Time.After iat now | None => true end).
  { split.
    - intros [= <-]. right; left. repeat split; try assumption.
      intros H; apply HI in H; discriminate.
    - intros [[H _]|[(_ & _ & ->)|[(_ & H & _)|[(_ & H & _)|(_ & H & _)]]]];
        try reflexivity; try contradiction; apply HI in H; discriminate. }
  assert (HI1 : iatPast claims now) by (apply HI; reflexivity). clear HI.
  destruct (let '(s, ok) := assertString (Get claims "aud") in
            negb ok || negb (String.eqb s (projectID v))).
  { split.
    - intros [= <-]. do 2 right; left. repeat split; try assumption.
      intros H; apply HA in H; discriminate.
    - intros [[H _]|[(_ & H & _)|[(_ & _ & _ & ->)|[(_ & _ & H & _)|(_ & _ & H & _)]]]];
        try reflexivity; try contradiction; apply HA in H; discriminate. }
  assert (HA1 : audOk v claims) by (apply HA; reflexivity). clear HA.
  destruct (let '(s, ok) := assertString (Get claims "iss") in
            negb ok || negb (String.eqb s (issuer v))).
  { split.
    - intros [= <-]. do 3 right; left. repeat split; try assumption.
      intros H; apply HS in H; discriminate.
    - intros [[H _]|[(_ & H & _)|[(_ & _ & H & _)|[(_ & _ & _ & _ & ->)|(_ & _ & _ & H & _)]]]];
        try reflexivity; try contradiction; apply HS in H; discriminate. }
  assert (HS1 : issOk v claims) by (apply HS; reflexivity). clear HS.
  destruct (String.eqb (claimString claims "sub") ""
            || String.eqb (claimString claims "user_id") ""
            || negb (String.eqb (claimString claims "sub") (claimString claims "user_id"))).
  { split.
    - intros [= <-]. do 4 right. repeat split; try assumption.
      intros H. apply HU', HU in H. discriminate.
    - intros [[H _]|[(_ & H & _)|[(_ & _ & H & _)|[(_ & _ & _ & H & _)|(_ & _ & _ & _ & _ & ->)]]]];
        try reflexivity; contradiction. }
  split; [discriminate|].
  assert (HU1 : exists sub, subIs claims sub).
  { exists (claimString claims "user_id"). apply HU. reflexivity. }
  intros [[H _]|[(_ & H & _)|[(_ & _ & H & _)|[(_ & _ & _ & H & _)|(_ & _ & _ & _ & H & _)]]]];
    contradiction.
Qed.

(** ** One project per verifier *)

(** X3: Claims accepted by the verifier of one project are accepted by the
    verifier of no other project, at whatever time. *)
Theorem verifiers_do_not_share_tokens (p q : string) (claims : gmap string Value)
    (now now' : Time.Time) (u u' : User)
    (Hp : checkClaims (NewVerifier p) claims now = inl u)
    (Hq : checkClaims (NewVerifier q) claims now' = inl u') :
  p = q.
Proof.
  apply checkClaims_accepts in Hp as (sub & (_ & _ & Hap & _) & _).
  apply checkClaims_accepts in Hq as (sub' & (_ & _ & Haq & _) & _).
  unfold audOk in Hap, Haq. cbn [projectID NewVerifier] in Hap, Haq.
  congruence.
Qed.

Lemma verifiers_do_not_share_tokens_witness :
  checkClaims (NewVerifier "projectID") (Sample.goodClaims 1000 900) (Time.Unix 950)
  = inl (userOf (Sample.goodClaims 1000 900) "sub") /\
  "projectID" = "projectID".
Proof.
  assert (H : checkClaims (NewVerifier "projectID") (Sample.goodClaims 1000 900)
                (Time.Unix 950)
              = inl (userOf (Sample.goodClaims 1000 900) "sub"))
    by (vm_compute; reflexivity).
  split; [exact H|].
  exact (verifiers_do_not_share_tokens "projectID" "projectID" _ _ _ _ _ H H).
Defined.

(** ** When Verify returns a User *)

Section VerifyAccepts.

Context `{E : Engine}.

(** The run of the lookup, in terms of the map the call looks into. *)
Lemma run_lookupKey_seen (v : Verifier) (tok : JWS) (kid : string) (w : World) :
  (run w (lookupKey v tok kid)).2 =
  match seenCerts w with
  | Some certs' =>
      (run {| wCerts := certs'; wSelect := wSelect w; wNow := wNow w |}
           (withKey v tok kid (certs' !! kid))).2
  | None =>
      match wSelect w with
      | inl e => inr (contextError e)
      | inr _ => inr (contextError Canceled)
      end
  end.
Proof.
  unfold seenCerts. destruct (size (wCerts w) =? 0)%nat eqn:Hs.
  - apply Nat.eqb_eq, map_size_empty_iff in Hs.
    destruct (wSelect w) as [e|certs'] eqn:Hsel.
    + rewrite (run_lookupKey_cancelled v tok kid w e Hs Hsel). reflexivity.
    + rewrite (run_lookupKey_waited v tok kid w certs' Hs Hsel).
      cbv zeta. rewrite Hsel. reflexivity.
  - rewrite (run_lookupKey_nonempty v tok kid w Hs). cbn [snd].
    destruct w as [c s n]. reflexivity.
Qed.

Lemma run_withKey_user (v : Verifier) (tok : JWS) (kid : string) (key : option PublicKey)
    (w : World) (u : User) :
  (run w (withKey v tok kid key)).2 = inl u <->
  exists k claims,
    key = Some k /\ jwsVerify tok k = None /\ Payload tok = PayloadClaims claims /\
    checkClaims v claims (wNow w) = inl u.
Proof.
  unfold withKey. split.
  - destruct key as [k|]; [|discriminate].
    destruct (jwsVerify tok k) as [err|] eqn:Hsig; [discriminate|].
    destruct (Payload tok) as [claims|name] eqn:Hp; [|discriminate].
    rewrite run_Now. cbn [snd run]. intros H. exists k, claims. auto.
  - intros (k & claims & -> & Hsig & Hp & Hc). rewrite Hsig, Hp, run_Now.
    cbn [snd run]. exact Hc.
Qed.

End VerifyAccepts.

(** X4: Verify returns a User for exactly the tokens that parse, declare
    RS256 and a string key id, have that key id in the map the call
    looks into, pass the signature check under the key found there,
    carry a JSON object as payload, and whose claims are accepted at the
    time read from the clock; the User is the one built from the claims.
    In particular no User is ever returned for a token whose signature
    was not checked against the cached key of its own key id. *)
Theorem Verify_accepts_iff `{E : Engine} (v : Verifier) (token : list Byte.byte)
    (w : World) (u : User) :
  (run w (Verify v token)).2 = inl u <->
  exists (tok : JWS) (kid : string) (seen : gmap string PublicKey) (key : PublicKey)
         (claims : gmap string Value) (sub : string),
    ParseCompact token = inr tok /\
    Protected tok !! "alg" = Some (VString "RS256") /\
    Protected tok !! "kid" = Some (VString kid) /\
    seenCerts w = Some seen /\ seen !! kid = Some key /\
    jwsVerify tok key = None /\
    Payload tok = PayloadClaims claims /\
    acceptable v claims (wNow w) sub /\
    u = userOf claims sub.
Proof.
  split.
  - unfold Verify.
    destruct (ParseCompact token) as [err|tok] eqn:Hparse; [discriminate|].
    destruct (assertString (Get (Protected tok) "alg")) as [alg ok1] eqn:Halg.
    destruct ok1; [|discriminate]. cbn [negb orb].
    destruct (String.eqb_spec alg "RS256") as [->|]; [|discriminate].
    destruct (assertString (Get (Protected tok) "kid")) as [kid ok2] eqn:Hkid.
    destruct ok2; [|discriminate]. cbn [negb].
    apply claim_string_inv in Halg as [[_ Halg]|[? _]]; [|discriminate].
    apply claim_string_inv in Hkid as [[_ Hkid]|[? _]]; [|discriminate].
    rewrite run_lookupKey_seen.
    destruct (seenCerts w) as [seen|] eqn:Hseen.
    + intros H. apply run_withKey_user in H as (key & claims & Hk & Hsig & Hp & Hc).
      cbn [wNow] in Hc.
      apply checkClaims_accepts in Hc as (sub & Hacc & ->).
      exists tok, kid, seen, key, claims, sub.
      repeat (split; [first [assumption | reflexivity]|]). reflexivity.
    + destruct (wSelect w); discriminate.
  - intros (tok & kid & seen & key & claims & sub
            & Hparse & Halg & Hkid & Hseen & Hk & Hsig & Hp & Hacc & ->).
    rewrite (Verify_header_ok v token tok kid Hparse Halg Hkid).
    rewrite run_lookupKey_seen, Hseen.
    apply run_withKey_user. exists key, claims.
    repeat (split; [assumption|]).
    cbn [wNow]. apply checkClaims_accepts. exists sub. split; [assumption|reflexivity].
Qed.

Lemma Verify_accepts_iff_witness :
  (run (E := Sample.engine) (Sample.world (Time.Unix 950))
       (Verify Sample.verifier [Byte.x03])).2
  = inl (userOf (Sample.goodClaims 1000 900) "sub") /\
  exists (tok : JWS (Engine := Sample.engine)) (kid : string)
         (seen : gmap string nat) (key : nat)
         (claims : gmap string Value) (sub : string),
    ParseCompact (Engine := Sample.engine) [Byte.x03] = inr tok /\
    Protected tok !! "alg" = Some (VString "RS256") /\
    Protected tok !! "kid" = Some (VString kid) /\
    seenCerts (Sample.world (Time.Unix 950)) = Some seen /\ seen !! kid = Some key /\
    jwsVerify tok key = None /\
    Payload tok = PayloadClaims claims /\
    acceptable Sample.verifier claims (wNow (Sample.world (Time.Unix 950))) sub /\
    userOf (Sample.goodClaims 1000 900) "sub" = userOf claims sub.
Proof.
  assert (H : (run (E := Sample.engine) (Sample.world (Time.Unix 950))
                   (Verify Sample.verifier [Byte.x03])).2
              = inl (userOf (Sample.goodClaims 1000 900) "sub"))
    by (vm_compute; reflexivity).
  split; [exact H|].
  exact (proj1 (Verify_accepts_iff (E := Sample.engine) Sample.verifier [Byte.x03]
                  (Sample.world (Time.Unix 950)) _) H).
Defined.

(** ** What a call of Verify does on the way *)

Section VerifyOperations.

Context `{E : Engine}.

Lemma withKey_operations (v : Verifier) (tok : JWS) (kid : string)
    (key : option PublicKey) (w : World) :
  (run w (withKey v tok kid key)).1 = [] \/ (run w (withKey v tok kid key)).1 = [EvNow].
Proof.
  unfold withKey. destruct key as [k|]; [|left; reflexivity].
  destruct (jwsVerify tok k); [left; reflexivity|].
  destruct (Payload tok); [right; rewrite run_Now; reflexivity | left; reflexivity].
Qed.

End VerifyOperations.

(** X5: A call of Verify takes the read lock at most twice, waits in the
    select at most once and reads the clock at most once, in one of six
    orders; it waits only when the map under its first lock is empty,
    and it reads the clock only as its last operation. *)
Theorem Verify_operations `{E : Engine} (v : Verifier) (token : list Byte.byte)
    (w : World) :
  In (run w (Verify v token)).1
     [ []; [EvRLock]; [EvRLock; EvNow]; [EvRLock; EvSelect];
       [EvRLock; EvSelect; EvRLock]; [EvRLock; EvSelect; EvRLock; EvNow] ] /\
  (In EvSelect (run w (Verify v token)).1 -> wCerts w = ∅).
Proof.
  unfold Verify.
  destruct (ParseCompact token) as [err|tok].
  { split; [left; reflexivity | intros []]. }
  destruct (assertString (Get (Protected tok) "alg")) as [alg ok1].
  destruct (negb ok1 || negb (String.eqb alg "RS256")).
  { split; [left; reflexivity | intros []]. }
  destruct (assertString (Get (Protected tok) "kid")) as [kid ok2].
  destruct (negb ok2).
  { split; [left; reflexivity | intros []]. }
  destruct (size (wCerts w) =? 0)%nat eqn:Hs.
  - apply Nat.eqb_eq, map_size_empty_iff in Hs. split; [|intros _; exact Hs].
    destruct (wSelect w) as [e|certs'] eqn:Hsel.
    + rewrite (run_lookupKey_cancelled v tok kid w e Hs Hsel). cbn. tauto.
    + rewrite (run_lookupKey_waited v tok kid w certs' Hs Hsel). cbv zeta. cbn [fst].
      destruct (withKey_operations v tok kid (certs' !! kid)
                  {| wCerts := certs'; wSelect := wSelect w; wNow := wNow w |})
        as [-> | ->]; cbn; tauto.
  - rewrite (run_lookupKey_nonempty v tok kid w Hs). cbn [fst].
    destruct (withKey_operations v tok kid (wCerts w !! kid) w) as [-> | ->].
    + split; [cbn; tauto|]. cbn. intros [H|[]]. discriminate.
    + split; [cbn; tauto|]. cbn. intros [H|[H|[]]]; discriminate.
Qed.

(** * Further properties of the certificate cache *)

Section CacheFacts.

Context `{E : Engine}.

Lemma published_failed (r : HTTPResult) : failed r <-> published r = None.
Proof.
  unfold failed, published.
  destruct (fetchCerts r) as [[newCerts expiry] [e|]]; cbn; split;
    congruence.
Qed.

Lemma iteration_certs (st : LoopState) (r : HTTPResult) :
  certs (iteration st r).1 = default (certs st) (published r).
Proof.
  unfold published.
  destruct (fetchCerts r) as [[newCerts expiry] [e|]] eqn:Hr.
  - rewrite (iteration_failed_certs st r e); [reflexivity | rewrite Hr; reflexivity].
  - rewrite (iteration_ok_certs st r newCerts expiry Hr). reflexivity.
Qed.

Lemma iteration_haveCerts (st : LoopState) (r : HTTPResult) :
  haveCerts (iteration st r).1 = haveCerts st || closesHaveCerts st r /\
  firstFetch (iteration st r).1 = firstFetch st && negb (loadsKeys r).
Proof.
  unfold closesHaveCerts, loadsKeys, published, iteration.
  destruct (fetchCerts r) as [[newCerts expiry] [e|]]; cbv beta iota.
  - destruct (negb (0 <? size (certs st))%nat); cbn [fst haveCerts firstFetch negb];
      rewrite andb_false_r, orb_false_r, andb_true_r; split; reflexivity.
  - cbn [firstFetch]. destruct (firstFetch st); cbn [andb].
    + destruct (0 <? size newCerts)%nat; cbn [fst haveCerts firstFetch negb].
      * rewrite orb_true_r. split; reflexivity.
      * rewrite orb_false_r. split; reflexivity.
    + cbn [fst haveCerts firstFetch]. rewrite orb_false_r. split; reflexivity.
Qed.

End CacheFacts.

(** X6: The published map is always that of the latest fetch that returned
    without error, whatever failed since: starting with the map
    [certs st], a run of the loop over the fetches [rs] ends with the
    map of the last fetch of [rs] without error, and with [certs st]
    itself when every fetch of [rs] failed. *)
Theorem published_map_is_last_success `{E : Engine} (st : LoopState)
    (rs : list HTTPResult) :
  certs (fetchCertLoop st rs).1 = lastPublished (certs st) rs /\
  (Forall failed rs -> certs (fetchCertLoop st rs).1 = certs st).
Proof.
  assert (H : forall rs st, certs (fetchCertLoop st rs).1 = lastPublished (certs st) rs).
  { clear. intros rs. induction rs as [|r rs IH]; intros st; [reflexivity|].
    rewrite fetchCertLoop_cons. cbn [fst]. rewrite IH, iteration_certs. reflexivity. }
  split; [apply H|].
  intros Hall. rewrite H. clear H. revert st.
  induction Hall as [|r rs Hr _ IH]; intros st; [reflexivity|].
  unfold lastPublished in *. cbn [fold_left].
  apply published_failed in Hr. rewrite Hr. apply IH.
Qed.

(** X7: The close of [haveCerts]: after a run of the loop from its start the
    channel is closed exactly when some fetch of the run returned
    without error a map that holds a key; an iteration closes it only
    while it is open, so it is never closed twice; and once closed it
    stays closed. *)
Theorem haveCerts_closed_once `{E : Engine} (st : LoopState) (r : HTTPResult)
    (rs : list HTTPResult) (Hreach : reachable st) :
  haveCerts (fetchCertLoop initial rs).1 = existsb loadsKeys rs /\
  (closesHaveCerts st r = true ->
   haveCerts st = false /\ haveCerts (iteration st r).1 = true) /\
  (haveCerts st = true -> haveCerts (fetchCertLoop st rs).1 = true).
Proof.
  assert (Hrun : forall rs st, haveCerts st = negb (firstFetch st) ->
            haveCerts (fetchCertLoop st rs).1 = haveCerts st || existsb loadsKeys rs).
  { clear. intros rs. induction rs as [|r rs IH]; intros st Hinv.
    - cbn. rewrite orb_false_r. reflexivity.
    - rewrite fetchCertLoop_cons. cbn [fst existsb].
      destruct (iteration_haveCerts st r) as [Hh Hf].
      rewrite IH.
      + rewrite Hh. unfold closesHaveCerts. rewrite Hinv.
        destruct (firstFetch st), (loadsKeys r); reflexivity.
      + rewrite Hh, Hf. unfold closesHaveCerts. rewrite Hinv.
        destruct (firstFetch st), (loadsKeys r); reflexivity. }
  destruct (reachable_signal_inv st Hreach) as [Hinv _].
  split; [|split].
  - rewrite (Hrun rs initial eq_refl). reflexivity.
  - intros Hc. destruct (iteration_haveCerts st r) as [Hh _].
    rewrite Hh, Hc, orb_true_r. split; [|reflexivity].
    unfold closesHaveCerts in Hc. apply andb_prop in Hc as [Hf _].
    rewrite Hinv, Hf. reflexivity.
  - intros Hh. rewrite (Hrun rs st Hinv), Hh. reflexivity.
Qed.

Lemma haveCerts_closed_once_witness :
  reachable (E := Sample.engine) initial /\
  haveCerts (fetchCertLoop (E := Sample.engine) initial
               [DoFailed; Sample.noKeys; Sample.oneKey; DoFailed]).1
  = existsb (loadsKeys (E := Sample.engine))
            [DoFailed; Sample.noKeys; Sample.oneKey; DoFailed] /\
  existsb (loadsKeys (E := Sample.engine))
          [DoFailed; Sample.noKeys; Sample.oneKey; DoFailed] = true.
Proof.
  split; [apply reachable_initial|]. split; [|vm_compute; reflexivity].
  exact (proj1 (haveCerts_closed_once (E := Sample.engine) initial DoFailed
                  [DoFailed; Sample.noKeys; Sample.oneKey; DoFailed]
                  reachable_initial)).
Defined.

(** ** What a fetch returns *)

(** X8: fetchCerts returns without error exactly when the request got a
    response whose body decodes and all of whose certificates parse; it
    then returns the map with the same key ids as the body, each with
    the parsed certificate of that id, and the refresh interval derived
    from the Cache-Control header. *)
Theorem fetchCerts_ok_iff `{E : Engine} (r : HTTPResult)
    (newCerts : gmap string PublicKey) (expiry : Time.Duration) :
  fetchCerts r = (newCerts, expiry, None) <->
  exists body cacheControl,
    r = Response (Some body) cacheControl /\
    (forall k cert, body !! k = Some cert -> is_Some (ParseRSAPublicKeyFromPEM cert)) /\
    (forall k, newCerts !! k = body !! k ≫= ParseRSAPublicKeyFromPEM) /\
    expiry = maxAgeExpiry cacheControl.
Proof.
  split.
  - destruct r as [|[body|] cc]; cbn; try discriminate.
    pose proof (parseCerts_spec body) as Hspec.
    destruct (parseCerts body) as [parsed|]; [|discriminate].
    intros [= <- <-]. destruct Hspec as [H1 H2].
    exists body, cc. repeat split; assumption.
  - intros (body & cc & -> & Hall & Hlook & ->). cbn.
    pose proof (parseCerts_spec body) as Hspec.
    destruct (parseCerts body) as [parsed|].
    + destruct Hspec as [H1 _]. f_equal. f_equal.
      apply map_eq. intros k. rewrite H1, Hlook. reflexivity.
    + destruct Hspec as (k & cert & Hk & Hbad).
      destruct (Hall k cert Hk) as [pk Hpk]. congruence.
Qed.

Lemma fetchCerts_ok_iff_witness :
  fetchCerts (E := Sample.engine)
    (Response (Some (<["k2" := "certB"]> {["k1" := "cert"]})) "max-age=120")
  = (<["k2" := 5%nat]> {["k1" := 4%nat]}, 120 * Time.Second, None).
Proof.
  apply (proj2 (fetchCerts_ok_iff (E := Sample.engine) _ _ _)).
  exists (<["k2" := "certB"]> {["k1" := "cert"]}), "max-age=120".
  split; [reflexivity|]. split; [|split; [|reflexivity]].
  - intros k cert Hk. cbn. destruct (String.eqb cert "bad") eqn:Hb; [|eauto].
    apply String.eqb_eq in Hb. subst cert.
    destruct (decide (k = "k2")) as [->|Hn2].
    + rewrite lookup_insert_eq in Hk. discriminate.
    + rewrite lookup_insert_ne in Hk by congruence.
      destruct (decide (k = "k1")) as [->|Hn1].
      * rewrite lookup_singleton_eq in Hk. discriminate.
      * rewrite lookup_singleton_ne in Hk by congruence. discriminate.
  - intros k.
    destruct (decide (k = "k2")) as [->|Hn2].
    + rewrite !lookup_insert_eq. reflexivity.
    + rewrite !lookup_insert_ne by congruence.
      destruct (decide (k = "k1")) as [->|Hn1].
      * rewrite !lookup_singleton_eq. reflexivity.
      * rewrite !lookup_singleton_ne by congruence. reflexivity.
Defined.

(** ** A refresh, then a verification *)

(** X9: After an iteration whose fetch returned the certificates [body]
    without error, a call of Verify that meets the published map and
    whose token passes the header checks is decided by [body] alone:
    when [body] holds certificates but none for the token's key id the
    call fails at once with the unknown-kid error, and when it holds one
    the call goes on to check the signature against the parsed form of
    exactly that certificate, without waiting. *)
Theorem refresh_then_verify `{E : Engine} (st : LoopState) (body : gmap string string)
    (cacheControl : string) (v : Verifier) (token : list Byte.byte) (tok : JWS)
    (kid : string) (sel : ContextError + gmap string PublicKey) (now : Time.Time)
    (Hreach : reachable st)
    (Hcerts : forall k cert, body !! k = Some cert ->
                             is_Some (ParseRSAPublicKeyFromPEM cert))
    (Hnonempty : body <> ∅)
    (Hparse : ParseCompact token = inr tok)
    (Halg : Protected tok !! "alg" = Some (VString "RS256"))
    (Hkid : Protected tok !! "kid" = Some (VString kid)) :
  let st' := (iteration st (Response (Some body) cacheControl)).1 in
  let w := {| wCerts := certs st'; wSelect := sel; wNow := now |} in
  haveCerts st' = true /\
  (body !! kid = None ->
   run w (Verify v token) = ([EvRLock], inr (Failure.UnknownKeyID kid))) /\
  (forall cert, body !! kid = Some cert ->
     exists key, ParseRSAPublicKeyFromPEM cert = Some key /\
       run w (Verify v token) =
       (EvRLock :: (run w (withKey v tok kid (Some key))).1,
        (run w (withKey v tok kid (Some key))).2)).
Proof.
  cbv zeta.
  set (r := Response (Some body) cacheControl).
  destruct (fetchCerts r) as [[newCerts expiry] err] eqn:Hr.
  assert (Herr : err = None /\ forall k, newCerts !! k = body !! k ≫= ParseRSAPublicKeyFromPEM).
  { subst r. cbn in Hr. pose proof (parseCerts_spec body) as Hspec.
    destruct (parseCerts body) as [parsed|].
    - injection Hr as <- _ <-. split; [reflexivity | apply Hspec].
    - destruct Hspec as (k & cert & Hk & Hbad).
      destruct (Hcerts k cert Hk) as [pk Hpk]. congruence. }
  destruct Herr as [-> Hlook].
  assert (Hc : certs (iteration st r).1 = newCerts)
    by exact (iteration_ok_certs st r newCerts expiry Hr).
  assert (Hne : newCerts <> ∅).
  { intros ->. apply Hnonempty. apply map_eq. intros k. rewrite lookup_empty.
    destruct (body !! k) as [cert|] eqn:Hk; [|reflexivity].
    specialize (Hlook k). rewrite lookup_empty, Hk in Hlook. cbn in Hlook.
    destruct (Hcerts k cert Hk) as [pk Hpk]. congruence. }
  assert (Hsz : (size (certs (iteration st r).1) =? 0)%nat = false).
  { rewrite Hc. apply Nat.eqb_neq. rewrite map_size_empty_iff. exact Hne. }
  rewrite (Verify_header_ok v token tok kid Hparse Halg Hkid).
  split; [|split].
  - destruct (reachable_signal_inv _ (reachable_iteration st r Hreach)) as [_ Hsig].
    apply Hsig. rewrite Hc. exact Hne.
  - intros Hnone. rewrite run_lookupKey_nonempty by exact Hsz.
    cbn [wCerts]. rewrite Hc, Hlook, Hnone. reflexivity.
  - intros cert Hk. destruct (Hcerts kid cert Hk) as [key Hkey].
    exists key. split; [exact Hkey|].
    rewrite run_lookupKey_nonempty by exact Hsz.
    cbn [wCerts]. rewrite Hc, Hlook, Hk. cbn. rewrite Hkey. reflexivity.
Qed.

Lemma refresh_then_verify_witness :
  let st' := (iteration (E := Sample.engine) initial Sample.oneKey).1 in
  let w := {| wCerts := certs st'; wSelect := inl Canceled; wNow := Time.Unix 950 |} in
  haveCerts st' = true /\
  run w (Verify Sample.verifier [Byte.x04]) = ([EvRLock], inr (Failure.UnknownKeyID "k9")).
Proof.
  cbv zeta.
  assert (Hcerts : forall k cert,
             ({["k1" := "cert"]} : gmap string string) !! k = Some cert ->
             is_Some (ParseRSAPublicKeyFromPEM (Engine := Sample.engine) cert)).
  { intros k cert Hk. destruct (decide (k = "k1")) as [->|Hn].
    - rewrite lookup_singleton_eq in Hk. injection Hk as <-. eexists. reflexivity.
    - rewrite lookup_singleton_ne in Hk by congruence. discriminate. }
  assert (Hne : ({["k1" := "cert"]} : gmap string string) <> ∅).
  { intros H. apply (f_equal (fun m => m !! "k1")) in H.
    rewrite lookup_singleton_eq, lookup_empty in H. discriminate. }
  pose proof (refresh_then_verify (E := Sample.engine) initial {["k1" := "cert"]} ""
                Sample.verifier [Byte.x04]
                {| Sample.header := Sample.rs256 "k9";
                   Sample.payload := PayloadClaims (Sample.goodClaims 1000 900);
                   Sample.signer := 4%nat |}
                "k9" (inl Canceled) (Time.Unix 950)
                reachable_initial Hcerts Hne eq_refl eq_refl eq_refl) as H.
  cbv zeta in H. destruct H as (H1 & H2 & _).
  split; [exact H1|]. apply H2. reflexivity.
Defined.

(** ** max-age among other directives *)

Lemma Split_nonempty (s : string) : Strings.Split ","%char s <> [].
Proof.
  destruct s as [|c s]; [discriminate|]. cbn [Strings.Split].
  destruct (Ascii.eqb c ","%char); [discriminate|].
  destruct (Strings.Split ","%char s); discriminate.
Qed.

(** Splitting what was joined by a comma. *)
Lemma Split_app_comma (x y : string) :
  Strings.Split ","%char (x ++ String ","%char y)
  = (Strings.Split ","%char x ++ Strings.Split ","%char y)%list.
Proof.
  induction x as [|c x IH]; [reflexivity|].
  rewrite string_app_cons. cbn [Strings.Split].
  destruct (Ascii.eqb c ","%char).
  - rewrite IH. reflexivity.
  - rewrite IH. pose proof (Split_nonempty x) as Hx.
    destruct (Strings.Split ","%char x) as [|p ps]; [contradiction|]. reflexivity.
Qed.

Lemma Split_cons_single (c : ascii) (rest : string) :
  Ascii.eqb c ","%char = false ->
  Strings.Split ","%char rest = [rest] ->
  Strings.Split ","%char (String c rest) = [String c rest].
Proof. intros Hc Hr. cbn [Strings.Split]. rewrite Hc, Hr. reflexivity. Qed.

Lemma Split_single_app (a b : string) :
  Strings.Split ","%char a = [a] -> Strings.Split ","%char b = [b] ->
  Strings.Split ","%char (a ++ b) = [a ++ b].
Proof.
  intros Ha Hb. induction a as [|c a IH]; [exact Hb|].
  rewrite string_app_cons. cbn [Strings.Split] in Ha.
  destruct (Ascii.eqb c ","%char) eqn:Hc; [discriminate|].
  destruct (Strings.Split ","%char a) as [|p ps] eqn:Hs.
  - exfalso. exact (Split_nonempty a Hs).
  - injection Ha as -> ->. apply Split_cons_single; [exact Hc | apply IH; reflexivity].
Qed.

Lemma byte_not_comma (c : ascii) :
  nat_of_ascii c <> 44%nat -> Ascii.eqb c ","%char = false.
Proof.
  intros H. destruct (Ascii.eqb_spec c ","%char) as [->|]; [|reflexivity].
  exfalso. apply H. reflexivity.
Qed.

(** White space holds no comma. *)
Lemma blank_Split (ws : string) : blank ws -> Strings.Split ","%char ws = [ws].
Proof.
  induction 1 as [|c rest Hc _ IH|c1 c2 rest Hc _ IH|c1 c2 c3 rest Hc _ IH].
  - reflexivity.
  - apply isSpace_byte in Hc.
    apply Split_cons_single; [apply byte_not_comma; lia | exact IH].
  - apply isSpace2_bytes in Hc.
    repeat (apply Split_cons_single; [apply byte_not_comma; lia|]). exact IH.
  - apply isSpace3_bytes in Hc.
    repeat (apply Split_cons_single; [apply byte_not_comma; lia|]). exact IH.
Qed.

(** Splitting the parts joined by commas gives the parts back. *)
Lemma Split_concat (parts : list string) :
  parts <> [] ->
  Forall (fun p => Strings.Split ","%char p = [p]) parts ->
  Strings.Split ","%char (String.concat "," parts) = parts.
Proof.
  intros Hne Hall. induction Hall as [|p parts Hp Hall IH]; [contradiction|].
  destruct parts as [|q parts]; [exact Hp|].
  change (String.concat "," (p :: q :: parts))
    with (p ++ String ","%char (String.concat "," (q :: parts)))%string.
  rewrite Split_app_comma, Hp, IH by discriminate. reflexivity.
Qed.

(** X10: A max-age directive standing among other directives decides
    the interval whatever white space surrounds it, a no-break space or
    another Unicode space included: for a header that joins by commas
    parts that are no max-age directives and one part that is
    max-age=N between white space, with 0 <= N <= 9223372036, the
    interval is N seconds. *)
Theorem maxAge_among_directives (pre post : list string) (ws1 ws2 s : string) (n : Z)
    (Hpre : Forall (fun p => Strings.Split ","%char p = [p] /\ otherDirective p) pre)
    (Hpost : Forall (fun p => Strings.Split ","%char p = [p] /\ otherDirective p) post)
    (Hws1 : blank ws1) (Hws2 : blank ws2)
    (Hvalue : Strings.Atoi s = Some n) (Hrange : 0 <= n <= 9223372036) :
  maxAgeExpiry
    (String.concat "," (pre ++ (ws1 ++ "max-age=" ++ s ++ ws2)%string :: post)%list)
  = n * Time.Second.
Proof.
  set (part := (ws1 ++ "max-age=" ++ s ++ ws2)%string).
  assert (Htrim : Strings.TrimSpace part = ("max-age=" ++ s)%string)
    by exact (TrimSpace_max_age ws1 ws2 s n Hws1 Hws2 Hvalue).
  assert (Hpart : maxAgeDirective part n).
  { unfold maxAgeDirective. rewrite Htrim. split; [destruct s; reflexivity|].
    change (Strings.slice_from 8 ("max-age=" ++ s)%string) with s. exact Hvalue. }
  assert (Hsingle : Strings.Split ","%char part = [part]).
  { unfold part. apply Split_single_app; [apply blank_Split, Hws1|].
    change ("max-age=" ++ s ++ ws2)%string with (("max-age=" ++ s) ++ ws2)%string.
    apply Split_single_app; [|apply blank_Split, Hws2].
    apply Split_plain. cbn. exact (Atoi_plain s n Hvalue). }
  assert (Hsplit : Strings.Split ","%char
                     (String.concat "," (pre ++ part :: post)%list)
                   = (pre ++ part :: post)%list).
  { apply Split_concat; [destruct pre; discriminate|].
    apply Forall_app. split; [|constructor; [exact Hsingle|]].
    - eapply Forall_impl; [exact Hpre|]. intros p [H _]. exact H.
    - eapply Forall_impl; [exact Hpost|]. intros p [H _]. exact H. }
  unfold maxAgeExpiry. cbv zeta. rewrite Hsplit.
  rewrite (scan_last_directive pre post part n).
  - rewrite checked_seconds by lia. destruct (Z.ltb_spec n 0); [lia | reflexivity].
  - eapply Forall_impl; [exact Hpre|]. intros p [_ H]. left. exact H.
  - exact Hpart.
  - eapply Forall_impl; [exact Hpost|]. intros p [_ H]. exact H.
Qed.

Lemma maxAge_among_directives_witness :
  maxAgeExpiry ("public," ++ nbsp ++ "max-age=3600 " ++ nbsp ++ ",must-revalidate")
  = 3600 * Time.Second.
Proof.
  apply (maxAge_among_directives ["public"] ["must-revalidate"] nbsp (" " ++ nbsp)%string
           "3600" 3600).
  - constructor; [split; reflexivity | constructor].
  - constructor; [split; reflexivity | constructor].
  - apply blank_2; [reflexivity | apply blank_empty].
  - apply blank_1; [reflexivity|]. apply blank_2; [reflexivity | apply blank_empty].
  - reflexivity.
  - lia.
Defined.

(** * Properties of Client.Send *)

Section SendFacts.

Context `{V : FCM.Env}.

Lemma answer_server_error (resp : FCM.HTTPResponse) (e : FCM.ServerError) :
  FCM.answer resp = inr (FCM.ServerErr e) <->
  500 <= FCM.StatusCode resp < 600 /\
  e = {| FCM.seRetryAfter := FCM.retryHint resp;
         FCM.seStatusCode := FCM.StatusCode resp;
         FCM.seBody := FCM.Body resp |}.
Proof.
  unfold FCM.answer. cbv zeta.
  destruct (Z.leb_spec 500 (FCM.StatusCode resp)) as [Hlo|Hlo];
    destruct (Z.ltb_spec (FCM.StatusCode resp) 600) as [Hhi|Hhi]; cbn [andb].
  - split; [intros [= <-]; split; [lia | reflexivity] | intros [_ ->]; reflexivity].
  - split; [|lia].
    destruct (FCM.StatusCode resp =? 400); [discriminate|].
    destruct (FCM.StatusCode resp =? 401); [discriminate|].
    destruct (FCM.StatusCode resp =? 200); [|discriminate].
    destruct (FCM.Decode (FCM.Body resp)); discriminate.
  - split; [|lia].
    destruct (FCM.StatusCode resp =? 400); [discriminate|].
    destruct (FCM.StatusCode resp =? 401); [discriminate|].
    destruct (FCM.StatusCode resp =? 200); [|discriminate].
    destruct (FCM.Decode (FCM.Body resp)); discriminate.
  - split; [|lia].
    destruct (FCM.StatusCode resp =? 400); [discriminate|].
    destruct (FCM.StatusCode resp =? 401); [discriminate|].
    destruct (FCM.StatusCode resp =? 200); [|discriminate].
    destruct (FCM.Decode (FCM.Body resp)); discriminate.
Qed.

Lemma answer_ok (resp : FCM.HTTPResponse) (r : FCM.Response) :
  FCM.answer resp = inl r <->
  FCM.StatusCode resp = 200 /\
  exists d, FCM.Decode (FCM.Body resp) = inr d /\
    r = {| FCM.MulticastID := FCM.MulticastID d; FCM.Success := FCM.Success d;
           FCM.Failure := FCM.Failure d; FCM.CanonicalIDs := FCM.CanonicalIDs d;
           FCM.Results := FCM.Results d; FCM.RetryAfter := FCM.retryHint resp |}.
Proof.
  unfold FCM.answer. cbv zeta. split.
  - destruct ((500 <=? FCM.StatusCode resp) && (FCM.StatusCode resp <? 600));
      [discriminate|].
    destruct (FCM.StatusCode resp =? 400); [discriminate|].
    destruct (FCM.StatusCode resp =? 401); [discriminate|].
    destruct (Z.eqb_spec (FCM.StatusCode resp) 200) as [Hs|]; [|discriminate].
    destruct (FCM.Decode (FCM.Body resp)) as [err|d]; [discriminate|].
    intros [= <-]. split; [exact Hs|]. exists d. split; reflexivity.
  - intros (Hs & d & Hd & ->). rewrite Hs, Hd. reflexivity.
Qed.

Lemma answer_authentication_failure (resp : FCM.HTTPResponse) :
  FCM.answer resp = inr FCM.ErrAuthenticationFailure <-> FCM.StatusCode resp = 401.
Proof.
  unfold FCM.answer. cbv zeta. split.
  - destruct ((500 <=? FCM.StatusCode resp) && (FCM.StatusCode resp <? 600));
      [discriminate|].
    destruct (FCM.StatusCode resp =? 400); [discriminate|].
    destruct (Z.eqb_spec (FCM.StatusCode resp) 401) as [Hs|]; [intros _; exact Hs|].
    destruct (FCM.StatusCode resp =? 200); [|discriminate].
    destruct (FCM.Decode (FCM.Body resp)); discriminate.
  - intros ->. reflexivity.
Qed.

(** Send returns what [answer] makes of a response exactly when the
    message is there, marshals, and the request is accepted and gets a
    response. *)
Lemma Send_answer (c : FCM.Client) (ctx : option FCM.Context)
    (msg : option FCM.Message) (a : FCM.Response + FCM.error) :
  (forall m, a <> inr (FCM.Errorf "fcm: cannot marshal msg: %v" [FCM.FMessage m])) ->
  (forall err, a <> inr (FCM.DoError err)) ->
  FCM.Send c ctx msg = FCM.Return a <->
  exists cx m data resp,
    ctx = Some cx /\ msg = Some m /\ FCM.Marshal m = Some data /\
    FCM.NewRequestAccepts (FCM.clientURL c) = true /\
    FCM.Do cx (FCM.newRequest c data) = inr resp /\
    FCM.answer resp = a.
Proof.
  intros Hm Hd. unfold FCM.Send. split.
  - destruct msg as [m|]; [|discriminate].
    destruct (FCM.Marshal m) as [data|] eqn:Hdata.
    + destruct (FCM.NewRequestAccepts (FCM.clientURL c)) eqn:Hurl; [|discriminate].
      cbn [negb]. destruct ctx as [cx|]; [|discriminate].
      destruct (FCM.Do cx (FCM.newRequest c data)) as [err|resp] eqn:Hdo.
      * intros [= <-]. exfalso. exact (Hd err eq_refl).
      * intros [= <-]. exists cx, m, data, resp. auto 10.
    + intros [= <-]. exfalso. exact (Hm m eq_refl).
  - intros (cx & m & data & resp & -> & -> & Hdata & Hurl & Hdo & <-).
    rewrite Hdata, Hurl, Hdo. reflexivity.
Qed.

End SendFacts.

(** X11: Send returns a ServerError exactly when its request got a response
    with a status from 500 to 599; the error then carries that status,
    the body of the response and the Retry-After hint of its header
    (zero when the header is absent or is no duration).  So the status
    of every ServerError Send returns lies in the 5xx range. *)
Theorem Send_server_error `{V : FCM.Env} (c : FCM.Client) (ctx : option FCM.Context)
    (msg : option FCM.Message)
    (e : FCM.ServerError) :
  (FCM.Send c ctx msg = FCM.Return (inr (FCM.ServerErr e)) <->
   exists cx m data resp,
     ctx = Some cx /\
     msg = Some m /\ FCM.Marshal m = Some data /\
     FCM.NewRequestAccepts (FCM.clientURL c) = true /\
     FCM.Do cx (FCM.newRequest c data) = inr resp /\
     500 <= FCM.StatusCode resp < 600 /\
     e = {| FCM.seRetryAfter := FCM.retryHint resp;
            FCM.seStatusCode := FCM.StatusCode resp;
            FCM.seBody := FCM.Body resp |}) /\
  (FCM.Send c ctx msg = FCM.Return (inr (FCM.ServerErr e)) ->
   500 <= FCM.seStatusCode e < 600).
Proof.
  assert (Hiff : FCM.Send c ctx msg = FCM.Return (inr (FCM.ServerErr e)) <->
     exists cx m data resp,
     ctx = Some cx /\
       msg = Some m /\ FCM.Marshal m = Some data /\
       FCM.NewRequestAccepts (FCM.clientURL c) = true /\
       FCM.Do cx (FCM.newRequest c data) = inr resp /\
       500 <= FCM.StatusCode resp < 600 /\
       e = {| FCM.seRetryAfter := FCM.retryHint resp;
              FCM.seStatusCode := FCM.StatusCode resp;
              FCM.seBody := FCM.Body resp |}).
  { rewrite Send_answer by (intros; discriminate). split.
    - intros (cx & m & data & resp & Hc & Hm & Hd & Hu & Hdo & Ha).
      apply answer_server_error in Ha as [Hs He]. exists cx, m, data, resp. auto 10.
    - intros (cx & m & data & resp & Hc & Hm & Hd & Hu & Hdo & Hs & He).
      exists cx, m, data, resp. repeat (split; [assumption|]).
      apply answer_server_error. auto. }
  split; [exact Hiff|].
  intros H. apply Hiff in H as (cx & m & data & resp & _ & _ & _ & _ & _ & Hs & ->). exact Hs.
Qed.

Lemma Send_server_error_witness :
  FCM.Send (V := FCM.Sample.env) FCM.Sample.client (Some tt) (Some "m")
  = FCM.Return (inr (FCM.ServerErr {| FCM.seRetryAfter := 120 * Time.Second;
                                      FCM.seStatusCode := 503;
                                      FCM.seBody := "unavailable" |})) /\
  500 <= 503 < 600.
Proof.
  assert (H : FCM.Send (V := FCM.Sample.env) FCM.Sample.client (Some tt) (Some "m")
              = FCM.Return (inr (FCM.ServerErr {| FCM.seRetryAfter := 120 * Time.Second;
                                                  FCM.seStatusCode := 503;
                                                  FCM.seBody := "unavailable" |})))
    by reflexivity.
  split; [exact H|].
  exact (proj2 (Send_server_error (V := FCM.Sample.env) FCM.Sample.client (Some tt)
                  (Some "m") _) H).
Defined.

(** X12: Send returns a Response exactly when its request got a response
    with status 200 whose body decodes; the Response is the decoded one
    except for RetryAfter, which is always the hint of the Retry-After
    header and never a value from the body. *)
Theorem Send_ok_iff `{V : FCM.Env} (c : FCM.Client) (ctx : option FCM.Context)
    (msg : option FCM.Message)
    (r : FCM.Response) :
  FCM.Send c ctx msg = FCM.Return (inl r) <->
  exists cx m data resp d,
    ctx = Some cx /\
    msg = Some m /\ FCM.Marshal m = Some data /\
    FCM.NewRequestAccepts (FCM.clientURL c) = true /\
    FCM.Do cx (FCM.newRequest c data) = inr resp /\
    FCM.StatusCode resp = 200 /\
    FCM.Decode (FCM.Body resp) = inr d /\
    r = {| FCM.MulticastID := FCM.MulticastID d; FCM.Success := FCM.Success d;
           FCM.Failure := FCM.Failure d; FCM.CanonicalIDs := FCM.CanonicalIDs d;
           FCM.Results := FCM.Results d; FCM.RetryAfter := FCM.retryHint resp |}.
Proof.
  rewrite Send_answer by (intros; discriminate). split.
  - intros (cx & m & data & resp & Hc & Hm & Hd & Hu & Hdo & Ha).
    apply answer_ok in Ha as (Hs & d & Hdec & Hr).
    exists cx, m, data, resp, d. auto 10.
  - intros (cx & m & data & resp & d & Hc & Hm & Hd & Hu & Hdo & Hs & Hdec & Hr).
    exists cx, m, data, resp. repeat (split; [assumption|]).
    apply answer_ok. split; [exact Hs|]. exists d. auto.
Qed.

Lemma Send_ok_iff_witness :
  FCM.Send (V := FCM.Sample.env) FCM.Sample.client (Some tt) (Some "{}")
  = FCM.Return (inl {| FCM.MulticastID := 108; FCM.Success := 1; FCM.Failure := 0;
                       FCM.CanonicalIDs := 0;
                       FCM.Results := FCM.Results FCM.Sample.decoded;
                       FCM.RetryAfter := 30 * Time.Second |}).
Proof.
  apply (proj2 (Send_ok_iff (V := FCM.Sample.env) FCM.Sample.client (Some tt)
                  (Some "{}") _)).
  exists tt, "{}", "{}",
    {| FCM.StatusCode := 200;
       FCM.HeaderGet := fun name =>
         if String.eqb name "Retry-After" then "30s" else "";
       FCM.Body := "{}" |},
    FCM.Sample.decoded.
  repeat (split; [reflexivity|]). reflexivity.
Defined.

(** X13: Send returns ErrAuthenticationFailure exactly when its request got
    a response with status 401. *)
Theorem Send_authentication_failure_iff `{V : FCM.Env} (c : FCM.Client)
    (ctx : option FCM.Context) (msg : option FCM.Message) :
  FCM.Send c ctx msg = FCM.Return (inr FCM.ErrAuthenticationFailure) <->
  exists cx m data resp,
     ctx = Some cx /\
    msg = Some m /\ FCM.Marshal m = Some data /\
    FCM.NewRequestAccepts (FCM.clientURL c) = true /\
    FCM.Do cx (FCM.newRequest c data) = inr resp /\
    FCM.StatusCode resp = 401.
Proof.
  rewrite Send_answer by (intros; discriminate). split.
  - intros (cx & m & data & resp & Hc & Hm & Hd & Hu & Hdo & Ha).
    apply answer_authentication_failure in Ha. exists cx, m, data, resp. auto 10.
  - intros (cx & m & data & resp & Hc & Hm & Hd & Hu & Hdo & Hs).
    exists cx, m, data, resp. repeat (split; [assumption|]).
    apply answer_authentication_failure, Hs.
Qed.


